(** * Mock authentication utilities ([assets/auth.ts])

    A shallow embedding of [auth.ts] and of the host functions it calls
    ([btoa], [atob], [JSON.stringify], [JSON.parse], [String.prototype.split],
    [localStorage.getItem], [Math.random], [Math.floor], [Date.now]),
    followed by the properties of the token codec, of [login], of the
    session lookup and of the delay helper.

    Conventions.  A string is its list of UTF-16 code units.  An evaluation
    completes with a value or with an exception ([result]).  What the
    source reads from its environment is a parameter: [random] for the value
    of [Math.random()], [now] for the value of [Date.now()], [localStorage]
    for the storage, absent when the global is not defined.  An [async]
    function returns the delay of the timer it awaits and the way its
    promise settles ([Promise]). *)

From Stdlib Require Import Ascii String List NArith ZArith Lia Bool.
Import ListNotations.

Set Warnings "-register-all,-notation-for-abbreviation".

(** ** Strings and completion values *)

(** A JavaScript string is a sequence of UTF-16 code units. *)
Notation code_unit := N (only parsing).
Notation jsstring := (list N) (only parsing).

(** String literals of the source, written as Rocq strings. *)
Definition lit (s : string) : jsstring := map N_of_ascii (list_ascii_of_string s).
Arguments lit s%_string.

(** Strict equality [===] of two strings. *)
Fixpoint jsstring_eqb (a b : jsstring) : bool :=
  match a, b with
  | [], [] => true
  | x :: a', y :: b' => (x =? y)%N && jsstring_eqb a' b'
  | _, _ => false
  end.

(** What a [throw] carries: [new Error(msg)] of the source, and the errors
    raised by the host functions. *)
Inductive exn : Type :=
| Error (message : jsstring)
| TypeError
| SyntaxError
| InvalidCharacterError
| SecurityError.

(** Completion of an evaluation: a value, or an exception in flight. *)
Inductive result (A : Type) : Type :=
| Ok (a : A)
| Throw (e : exn).
Arguments Ok {A} a.
Arguments Throw {A} e.

Definition bind {A B} (m : result A) (k : A -> result B) : result B :=
  match m with
  | Ok a => k a
  | Throw e => Throw e
  end.

(** [try { body } catch { handler }] with a handler that ignores the
    exception, the only form [auth.ts] uses. *)
Definition try_catch {A} (body : result A) (handler : result A) : result A :=
  match body with
  | Ok a => Ok a
  | Throw _ => handler
  end.

Declare Scope js_scope.
Delimit Scope js_scope with js.
Notation "x <- m ;; k" := (bind m (fun x => k))
  (at level 61, m at next level, right associativity) : js_scope.
Open Scope js_scope.
Open Scope N_scope.

(** ** Base64: [btoa] and [atob] *)

Module Base64.

(** The character of a six-bit group, from the alphabet [A-Za-z0-9+/]. *)
Definition char_of (i : N) : code_unit :=
  if i <? 26 then 65 + i
  else if i <? 52 then 71 + i
  else if i <? 62 then i - 4
  else if i =? 62 then 43
  else 47.

Definition index_of (c : code_unit) : option N :=
  if (65 <=? c) && (c <=? 90) then Some (c - 65)
  else if (97 <=? c) && (c <=? 122) then Some (c - 71)
  else if (48 <=? c) && (c <=? 57) then Some (c + 4)
  else if c =? 43 then Some 62
  else if c =? 47 then Some 63
  else None.

Definition pad : code_unit := 61.

Fixpoint encode (bs : list N) : jsstring :=
  match bs with
  | [] => []
  | [a] => [char_of (a / 4); char_of ((a mod 4) * 16); pad; pad]
  | [a; b] =>
      [char_of (a / 4); char_of ((a mod 4) * 16 + b / 16);
       char_of ((b mod 16) * 4); pad]
  | a :: b :: c :: rest =>
      char_of (a / 4) :: char_of ((a mod 4) * 16 + b / 16)
      :: char_of ((b mod 16) * 4 + c / 64) :: char_of (c mod 64)
      :: encode rest
  end.

(** ASCII whitespace: TAB, LF, FF, CR and SPACE. *)
Definition is_ascii_whitespace (c : code_unit) : bool :=
  (c =? 9) || (c =? 10) || (c =? 12) || (c =? 13) || (c =? 32).

(** Removes one or two trailing [=]. *)
Fixpoint strip_padding (d : jsstring) : jsstring :=
  match d with
  | [] => []
  | x :: r =>
      match r with
      | [] => if x =? pad then [] else [x]
      | y :: r' =>
          match r' with
          | [] => if (x =? pad) && (y =? pad) then [] else x :: strip_padding r
          | _ :: _ => x :: strip_padding r
          end
      end
  end.

Fixpoint sextets (d : jsstring) : option (list N) :=
  match d with
  | [] => Some []
  | c :: r =>
      match index_of c, sextets r with
      | Some i, Some xs => Some (i :: xs)
      | _, _ => None
      end
  end.

(** Four six-bit groups give three bytes; a final group of three gives
    two bytes and one of two gives one byte, the spare bits dropped. *)
Fixpoint decode (xs : list N) : list N :=
  match xs with
  | a :: b :: c :: d :: rest =>
      (a * 4 + b / 16) :: ((b mod 16) * 16 + c / 4) :: ((c mod 4) * 64 + d)
      :: decode rest
  | [a; b; c] => [a * 4 + b / 16; (b mod 16) * 16 + c / 4]
  | [a; b] => [a * 4 + b / 16]
  | _ => []
  end.

End Base64.

Definition is_latin1 (s : jsstring) : bool := forallb (fun c => c <=? 255) s.

(** [btoa(data)]: throws when a code unit is above U+00FF. *)
Definition btoa (data : jsstring) : result jsstring :=
  if is_latin1 data then Ok (Base64.encode data) else Throw InvalidCharacterError.

(** [atob(data)], the forgiving-base64 decode: whitespace is removed, a
    padded input of length 0 mod 4 loses its padding, a length of 1 mod 4 or
    a character outside the alphabet throws. *)
Definition atob (data : jsstring) : result jsstring :=
  let d := filter (fun c => negb (Base64.is_ascii_whitespace c)) data in
  let d := if N.of_nat (length d) mod 4 =? 0 then Base64.strip_padding d else d in
  if N.of_nat (length d) mod 4 =? 1 then Throw InvalidCharacterError
  else match Base64.sextets d with
       | Some xs => Ok (Base64.decode xs)
       | None => Throw InvalidCharacterError
       end.


(** ** Values *)

(** A Number read from or written to JSON text, as the decimal it denotes:
    [(-1)^negative * mantissa * 10^exponent10].  The Number itself is the
    binary64 nearest to it; [auth.ts] never computes with a parsed Number,
    and the one Number it prints is the integer [Date.now() + 3600000]. *)
Record number : Type := Number {
  negative : bool;
  mantissa : N;
  exponent10 : Z
}.

Definition number_of_Z (z : Z) : number :=
  {| negative := (z <? 0)%Z; mantissa := Z.abs_N z; exponent10 := 0%Z |}.

(** The values [JSON.parse] can produce, and [undefined].  An object is
    its own properties in creation order. *)
Inductive value : Type :=
| VUndefined
| VNull
| VBool (b : bool)
| VNum (n : number)
| VStr (s : jsstring)
| VArr (elements : list value)
| VObj (props : list (jsstring * value)).

Notation props := (list (list N * value)) (only parsing).

Fixpoint get_own (key : jsstring) (ps : props) : option value :=
  match ps with
  | [] => None
  | (k, v) :: rest => if jsstring_eqb k key then Some v else get_own key rest
  end.

(** [CreateDataProperty]: an existing key keeps its place and takes the
    new value, a new key goes last. *)
Fixpoint set_own (key : jsstring) (v : value) (ps : props) : props :=
  match ps with
  | [] => [(key, v)]
  | (k, x) :: rest =>
      if jsstring_eqb k key then (k, v) :: rest else (k, x) :: set_own key v rest
  end.

(** [base.key] for a key that no built-in prototype defines: [null] and
    [undefined] have no properties and throw, an object answers with its own
    property, every other value answers [undefined]. *)
Definition get_property (base : value) (key : jsstring) : result value :=
  match base with
  | VUndefined | VNull => Throw TypeError
  | VObj ps => match get_own key ps with
               | Some v => Ok v
               | None => Ok VUndefined
               end
  | VBool _ | VNum _ | VStr _ | VArr _ => Ok VUndefined
  end.

(** The conversion of an argument to a string where the argument may be
    [undefined] (WebIDL [DOMString]). *)
Definition DOMString (o : option jsstring) : jsstring :=
  match o with
  | Some s => s
  | None => lit "undefined"
  end.

(** ** [String.prototype.split] with a one-character separator *)

Fixpoint split_from (sep : code_unit) (cur : jsstring) (s : jsstring)
  : list jsstring :=
  match s with
  | [] => [rev cur]
  | c :: r =>
      if c =? sep then rev cur :: split_from sep [] r
      else split_from sep (c :: cur) r
  end.

Definition split (sep : code_unit) (s : jsstring) : list jsstring :=
  split_from sep [] s.

Definition dot : code_unit := 46.

(** ** JSON *)

Module JSON.

Definition quote_mark : code_unit := 34.
Definition backslash : code_unit := 92.

(** JSON text written with ['] for the quotation mark. *)
Definition quote_mark_text (s : jsstring) : jsstring :=
  map (fun c => if c =? 39 then quote_mark else c) s.

Definition digit_char (d : N) : code_unit := 48 + d.

Definition hex_char (d : N) : code_unit :=
  if d <? 10 then 48 + d else 87 + d.

(** [\uXXXX], lower-case digits. *)
Definition unicode_escape (c : code_unit) : jsstring :=
  [backslash; 117; hex_char (c / 4096); hex_char ((c / 256) mod 16);
   hex_char ((c / 16) mod 16); hex_char (c mod 16)].

Definition is_high_surrogate (c : code_unit) : bool :=
  (55296 <=? c) && (c <=? 56319).
Definition is_low_surrogate (c : code_unit) : bool :=
  (56320 <=? c) && (c <=? 57343).

Definition quote_unit (c : code_unit) : jsstring :=
  if c =? 8 then [backslash; 98]
  else if c =? 9 then [backslash; 116]
  else if c =? 10 then [backslash; 110]
  else if c =? 12 then [backslash; 102]
  else if c =? 13 then [backslash; 114]
  else if c =? quote_mark then [backslash; quote_mark]
  else if c =? backslash then [backslash; backslash]
  else if c <? 32 then unicode_escape c
  else [c].

(** The body of [QuoteJSONString]: a surrogate pair is copied, a lone
    surrogate is escaped. *)
Fixpoint quote_units (s : jsstring) : jsstring :=
  match s with
  | [] => []
  | c :: r =>
      if is_high_surrogate c then
        match r with
        | d :: r' =>
            if is_low_surrogate d then c :: d :: quote_units r'
            else unicode_escape c ++ quote_units r
        | [] => unicode_escape c
        end
      else if is_low_surrogate c then unicode_escape c ++ quote_units r
      else quote_unit c ++ quote_units r
  end.

Definition quote (s : jsstring) : jsstring :=
  quote_mark :: quote_units s ++ [quote_mark].

(** Decimal digits of a natural number, most significant first. *)
Fixpoint digits_fuel (fuel : nat) (n : N) (acc : jsstring) : jsstring :=
  match fuel with
  | O => acc
  | S fuel' =>
      if n <? 10 then digit_char n :: acc
      else digits_fuel fuel' (n / 10) (digit_char (n mod 10) :: acc)
  end.

Definition digits (n : N) : jsstring :=
  digits_fuel (S (N.to_nat (N.log2 n))) n [].

(** [Number::toString] of an integer below 10^21: a sign and the decimal
    digits.  [auth.ts] prints integers only; a decimal with an exponent
    other than 0 is written with its exponent, which reads back as the same
    decimal without being the digits that JavaScript chooses.  From 2^53
    on an integer need not be a Number, and from 10^21 on JavaScript
    writes an exponent: the digits here are those of JavaScript below
    2^53. *)
Definition number_to_string (x : number) : jsstring :=
  (if negative x && negb (mantissa x =? 0) then [45] else [])
  ++ digits (mantissa x)
  ++ (if (exponent10 x =? 0)%Z then []
      else 101 :: (if (exponent10 x <? 0)%Z then [45] else [])
               ++ digits (Z.abs_N (exponent10 x))).

Fixpoint join (sep : jsstring) (parts : list jsstring) : jsstring :=
  match parts with
  | [] => []
  | [p] => p
  | p :: rest => p ++ sep ++ join sep rest
  end.

(** [SerializeJSONProperty]: [None] stands for [undefined], which an
    array prints as [null] and an object leaves out. *)
Fixpoint serialize (v : value) : option jsstring :=
  match v with
  | VUndefined => None
  | VNull => Some (lit "null")
  | VBool true => Some (lit "true")
  | VBool false => Some (lit "false")
  | VNum x => Some (number_to_string x)
  | VStr s => Some (quote s)
  | VArr elements =>
      Some (91 :: join [44]
              (map (fun x => match serialize x with
                             | Some t => t
                             | None => lit "null"
                             end) elements)
            ++ [93])
  | VObj ps =>
      Some (123 :: join [44]
              (flat_map (fun kv => match serialize (snd kv) with
                                   | Some t => [quote (fst kv) ++ 58 :: t]
                                   | None => []
                                   end) ps)
            ++ [125])
  end.

Definition stringify (v : value) : option jsstring := serialize v.

(** *** Parsing *)

Definition is_ws (c : code_unit) : bool :=
  (c =? 9) || (c =? 10) || (c =? 13) || (c =? 32).

Fixpoint skip_ws (s : jsstring) : jsstring :=
  match s with
  | [] => []
  | c :: r => if is_ws c then skip_ws r else s
  end.

Definition is_digit (c : code_unit) : bool := (48 <=? c) && (c <=? 57).

Definition hex_value (c : code_unit) : option N :=
  if is_digit c then Some (c - 48)
  else if (97 <=? c) && (c <=? 102) then Some (c - 87)
  else if (65 <=? c) && (c <=? 70) then Some (c - 55)
  else None.

Definition hex4 (a b c d : code_unit) : option code_unit :=
  match hex_value a, hex_value b, hex_value c, hex_value d with
  | Some x, Some y, Some z, Some w => Some (x * 4096 + y * 256 + z * 16 + w)
  | _, _, _, _ => None
  end.

(** The character a one-letter escape stands for. *)
Definition unescape (e : code_unit) : option code_unit :=
  if e =? quote_mark then Some quote_mark
  else if e =? backslash then Some backslash
  else if e =? 47 then Some 47
  else if e =? 98 then Some 8
  else if e =? 102 then Some 12
  else if e =? 110 then Some 10
  else if e =? 114 then Some 13
  else if e =? 116 then Some 9
  else None.

Definition cons_fst {A B} (a : A) (r : option (list A * B)) : option (list A * B) :=
  match r with
  | Some (l, b) => Some (a :: l, b)
  | None => None
  end.

(** The characters of a string, after its opening quotation mark, up to
    and including the closing one. *)
Fixpoint parse_chars (s : jsstring) : option (jsstring * jsstring) :=
  match s with
  | [] => None
  | c :: r =>
      if c =? quote_mark then Some ([], r)
      else if c =? backslash then
        match r with
        | [] => None
        | e :: r' =>
            if e =? 117 then
              match r' with
              | h1 :: h2 :: h3 :: h4 :: r'' =>
                  match hex4 h1 h2 h3 h4 with
                  | Some u => cons_fst u (parse_chars r'')
                  | None => None
                  end
              | _ => None
              end
            else
              match unescape e with
              | Some u => cons_fst u (parse_chars r')
              | None => None
              end
        end
      else if c <? 32 then None
      else cons_fst c (parse_chars r)
  end.

Fixpoint take_digits (s : jsstring) : jsstring * jsstring :=
  match s with
  | [] => ([], [])
  | c :: r =>
      if is_digit c then let (ds, rest) := take_digits r in (c :: ds, rest)
      else ([], s)
  end.

Definition N_of_digits (ds : jsstring) : N :=
  fold_left (fun a d => 10 * a + (d - 48)) ds 0.

(** The integer part: [0], or a digit from 1 to 9 followed by digits. *)
Definition parse_int (s : jsstring) : option (jsstring * jsstring) :=
  match s with
  | c :: r =>
      if c =? 48 then Some ([c], r)
      else if is_digit c then let (ds, rest) := take_digits r in Some (c :: ds, rest)
      else None
  | [] => None
  end.

Definition parse_frac (s : jsstring) : option (jsstring * jsstring) :=
  match s with
  | c :: r =>
      if c =? 46 then
        match take_digits r with
        | ([], _) => None
        | (ds, rest) => Some (ds, rest)
        end
      else Some ([], s)
  | [] => Some ([], s)
  end.

Definition parse_exp (s : jsstring) : option (Z * jsstring) :=
  match s with
  | c :: r =>
      if (c =? 101) || (c =? 69) then
        let (neg, r1) :=
          match r with
          | sg :: r' => if sg =? 45 then (true, r')
                        else if sg =? 43 then (false, r') else (false, r)
          | [] => (false, r)
          end in
        match take_digits r1 with
        | ([], _) => None
        | (ds, rest) =>
            let e := Z.of_N (N_of_digits ds) in
            Some (if neg then (- e)%Z else e, rest)
        end
      else Some (0%Z, s)
  | [] => Some (0%Z, s)
  end.

Definition parse_number (s : jsstring) : option (number * jsstring) :=
  let (neg, s1) :=
    match s with
    | c :: r => if c =? 45 then (true, r) else (false, s)
    | [] => (false, s)
    end in
  match parse_int s1 with
  | None => None
  | Some (ip, s2) =>
      match parse_frac s2 with
      | None => None
      | Some (fp, s3) =>
          match parse_exp s3 with
          | None => None
          | Some (e, s4) =>
              Some ({| negative := neg;
                       mantissa := N_of_digits (ip ++ fp);
                       exponent10 := (e - Z.of_nat (length fp))%Z |}, s4)
          end
      end
  end.

(** [strip_prefix p s] is what follows [p] in [s]. *)
Fixpoint strip_prefix (p s : jsstring) : option jsstring :=
  match p, s with
  | [], _ => Some s
  | a :: p', b :: s' => if a =? b then strip_prefix p' s' else None
  | _ :: _, [] => None
  end.

(** One value, with the text that follows it.  [parse_elements] and
    [parse_members] read what follows [[] and [{] once the empty case is
    excluded; the fuel bounds the number of nested calls. *)
Fixpoint parse_value (fuel : nat) (s : jsstring) : option (value * jsstring) :=
  match fuel with
  | O => None
  | S fuel' =>
      match skip_ws s with
      | [] => None
      | c :: r =>
          if c =? 123 then
            match skip_ws r with
            | d :: r' => if d =? 125 then Some (VObj [], r')
                         else parse_members fuel' (skip_ws r) []
            | [] => None
            end
          else if c =? 91 then
            match skip_ws r with
            | d :: r' => if d =? 93 then Some (VArr [], r')
                         else parse_elements fuel' (skip_ws r) []
            | [] => None
            end
          else if c =? quote_mark then
            match parse_chars r with
            | Some (str, rest) => Some (VStr str, rest)
            | None => None
            end
          else if (c =? 45) || is_digit c then
            match parse_number (c :: r) with
            | Some (x, rest) => Some (VNum x, rest)
            | None => None
            end
          else
            match strip_prefix (lit "null") (c :: r) with
            | Some rest => Some (VNull, rest)
            | None =>
                match strip_prefix (lit "true") (c :: r) with
                | Some rest => Some (VBool true, rest)
                | None =>
                    match strip_prefix (lit "false") (c :: r) with
                    | Some rest => Some (VBool false, rest)
                    | None => None
                    end
                end
            end
      end
  end

with parse_elements (fuel : nat) (s : jsstring) (acc : list value)
  : option (value * jsstring) :=
  match fuel with
  | O => None
  | S fuel' =>
      match parse_value fuel' s with
      | None => None
      | Some (v, r) =>
          match skip_ws r with
          | c :: r' =>
              if c =? 44 then parse_elements fuel' r' (v :: acc)
              else if c =? 93 then Some (VArr (rev (v :: acc)), r')
              else None
          | [] => None
          end
      end
  end

with parse_members (fuel : nat) (s : jsstring) (acc : props)
  : option (value * jsstring) :=
  match fuel with
  | O => None
  | S fuel' =>
      match skip_ws s with
      | q :: r0 =>
          if q =? quote_mark then
            match parse_chars r0 with
            | None => None
            | Some (key, r1) =>
                match skip_ws r1 with
                | colon :: r2 =>
                    if colon =? 58 then
                      match parse_value fuel' r2 with
                      | None => None
                      | Some (v, r3) =>
                          match skip_ws r3 with
                          | c :: r4 =>
                              if c =? 44 then
                                parse_members fuel' r4 (set_own key v acc)
                              else if c =? 125 then
                                Some (VObj (set_own key v acc), r4)
                              else None
                          | [] => None
                          end
                      end
                    else None
                | [] => None
                end
            end
          else None
      | [] => None
      end
  end.

(** [JSON.parse(text)]: one value, nothing but white space after it.
    The fuel is the length of the text and one more, which is enough for
    every text ([Fuel.parse_any_fuel]). *)
Definition parse (text : jsstring) : result value :=
  match parse_value (S (length text)) text with
  | Some (v, rest) =>
      match skip_ws rest with
      | [] => Ok v
      | _ :: _ => Throw SyntaxError
      end
  | None => Throw SyntaxError
  end.

End JSON.

(** ** [Math.random], [Math.floor] and the product between them *)

Module Binary64.
Open Scope Z_scope.

(** A binary64, [num / 2^scale]. *)
Record t : Type := Make { num : Z; scale : Z }.

(** What [Math.random()] can return: a binary64 that is at least 0 and
    less than 1, hence a significand of at most 53 bits over a power of
    two that is at most 2^1074. *)
Definition unit_interval (r : t) : Prop :=
  0 <= num r < 2 ^ 53 /\ num r < 2 ^ scale r /\ 0 <= scale r <= 1074.

(** [m / 2^sc] for [m >= 0], rounded to 53 significant bits, to nearest,
    ties to even. *)
Definition round_magnitude (m sc : Z) : t :=
  let bits := Z.log2 m + 1 in
  if bits <=? 53 then Make m sc
  else
    let sh := bits - 53 in
    let q := m / 2 ^ sh in
    let rem := m mod 2 ^ sh in
    let half := 2 ^ (sh - 1) in
    let up := (half <? rem) || ((rem =? half) && Z.odd q) in
    Make (if up then q + 1 else q) (sc - sh).

(** [m / 2^sc] rounded: the sign is kept and the magnitude rounded. *)
Definition round (m sc : Z) : t :=
  if m <? 0 then
    let x := round_magnitude (- m) sc in Make (- num x) (scale x)
  else round_magnitude m sc.

(** [x * n] for an integer [n] that is a binary64 itself: the exact
    product, rounded. *)
Definition mul_integer (x : t) (n : Z) : t := round (num x * n) (scale x).

(** [Math.floor(x)]; a negative scale shifts to the left. *)
Definition floor (x : t) : Z := Z.shiftr (num x) (scale x).

(** The binary64 nearest to an integer, which is an integer itself;
    below 2^1024 in magnitude, where binary64 is finite. *)
Definition nearest (z : Z) : Z := floor (round z 0).

(** [a + b] and [a - b] of two integers that are binary64: the exact
    result, rounded. *)
Definition add (a b : Z) : Z := nearest (a + b).
Definition sub (a b : Z) : Z := nearest (a - b).

(** An integer that is a Number: binary64 holds it exactly, and it is
    finite. *)
Definition integer (z : Z) : Prop := nearest z = z /\ Z.abs z < 2 ^ 1024.

End Binary64.

(** ** [auth.ts] *)

Inductive MembershipType : Type := basic | premium | elite.

Definition MembershipType_string (m : MembershipType) : jsstring :=
  match m with
  | basic => lit "basic"
  | premium => lit "premium"
  | elite => lit "elite"
  end.

Record User : Type := {
  id : jsstring;
  email : jsstring;
  name : jsstring;
  membershipType : MembershipType;
  memberSince : jsstring
}.

(** The object a [User] is at run time. *)
Definition User_value (u : User) : value :=
  VObj [(lit "id", VStr (id u));
        (lit "email", VStr (email u));
        (lit "name", VStr (name u));
        (lit "membershipType", VStr (MembershipType_string (membershipType u)));
        (lit "memberSince", VStr (memberSince u))].

(** A promise, by the delay of the timer it waited for and the way it
    settles: [Ok] resolves, [Throw] rejects. *)
Record Promise (A : Type) : Type := {
  timer : Z;
  settled : result A
}.
Arguments timer {A} _.
Arguments settled {A} _.

(** [await p; rest]. *)
Definition await_then {A B} (p : Promise A) (rest : A -> result B) : Promise B :=
  {| timer := timer p; settled := bind (settled p) rest |}.

(** [randomDelay(min, max)], with [random] the value of [Math.random()].
    [min] and [max] are integers that are Numbers; the subtraction, the
    two additions and the product of the source each round as binary64
    does. *)
Definition randomDelay (random : Binary64.t) (min max : Z) : Promise unit :=
  let delay :=
    Binary64.add
      (Binary64.floor
         (Binary64.mul_integer random (Binary64.add (Binary64.sub max min) 1)))
      min in
  {| timer := delay; settled := Ok tt |}.

(** The object literals [{ alg: 'HS256', typ: 'JWT' }] and
    [{ user, exp }] of [generateMockToken]. *)
Definition header_value : value :=
  VObj [(lit "alg", VStr (lit "HS256")); (lit "typ", VStr (lit "JWT"))].

Definition payload_value (user : User) (exp : Z) : value :=
  VObj [(lit "user", User_value user); (lit "exp", VNum (number_of_Z exp))].

(** [generateMockToken(user)], with [now] the value of [Date.now()]. *)
Definition generateMockToken (now : Z) (user : User) : result jsstring :=
  header <- btoa (DOMString (JSON.stringify header_value)) ;;
  payload <- btoa (DOMString (JSON.stringify
                                (payload_value user (now + 3600000)))) ;;
  let signature := lit "mock-signature" in
  Ok (header ++ dot :: payload ++ dot :: signature).

Definition login (random : Binary64.t) (now : Z) (email password : jsstring)
  : Promise (jsstring * User) :=
  await_then (randomDelay random 500 2000) (fun _ =>
    if jsstring_eqb password (lit "error") then
      Throw (Error (lit "Invalid credentials"))
    else
      let user := {| id := lit "user-123";
                     email := email;
                     name := lit "Jane Doe";
                     membershipType := premium;
                     memberSince := lit "2024-01-15" |} in
      token <- generateMockToken now user ;;
      Ok (token, user)).

(** [JSON.parse(atob(token.split('.')[1])).user], the expression both
    [verifyToken] and [getCurrentUser] evaluate inside their [try]. *)
Definition payload_user (token : jsstring) : result value :=
  decoded <- atob (DOMString (nth_error (split dot token) 1)) ;;
  payload <- JSON.parse decoded ;;
  get_property payload (lit "user").

Definition verifyToken (random : Binary64.t) (token : jsstring) : Promise value :=
  await_then (randomDelay random 100 500) (fun _ =>
    try_catch (payload_user token) (Throw (Error (lit "Invalid token")))).

(** [localStorage]: [None] when the global is not defined, else the
    stored items of a storage that can be read. *)
Notation Storage := (list (list N * list N)) (only parsing).

Fixpoint getItem (items : Storage) (key : jsstring) : option jsstring :=
  match items with
  | [] => None
  | (k, v) :: rest => if jsstring_eqb k key then Some v else getItem rest key
  end.

(** [logout()], over the state it could have changed. *)
Definition logout (localStorage : option Storage) : unit * option Storage :=
  (tt, localStorage).

Definition getCurrentUser (localStorage : option Storage) : result value :=
  match localStorage with
  | None => Ok VNull
  | Some items =>
      match getItem items (lit "auth_token") with
      | None => Ok VNull
      | Some [] => Ok VNull
      | Some token => try_catch (payload_user token) (Ok VNull)
      end
  end.

Definition is_null (v : value) : bool :=
  match v with
  | VNull => true
  | _ => false
  end.

Definition isAuthenticated (localStorage : option Storage) : result bool :=
  user <- getCurrentUser localStorage ;;
  Ok (negb (is_null user)).

(** *** The lookup where reading the storage can throw *)

(** What the identifier [localStorage] is in the execution environment:
    not defined; a global whose reading throws, as in a browser that denies
    the page its storage; [null] or another value without a [getItem] to
    call; an object with a [getItem], which may throw itself. *)
Inductive global_storage : Type :=
| NotDefined
| ReadThrows (e : exn)
| NoGetItem
| StorageObject (getItem : jsstring -> result (option jsstring)).

(** [getCurrentUser()] in such an environment.  The test of line 141 and
    the call of line 145 are outside the [try]: what they throw leaves the
    function. *)
Definition getCurrentUser_in (localStorage : global_storage) : result value :=
  match localStorage with
  | NotDefined => Ok VNull
  | ReadThrows e => Throw e
  | NoGetItem => Throw TypeError
  | StorageObject getItem =>
      token <- getItem (lit "auth_token") ;;
      match token with
      | None => Ok VNull
      | Some [] => Ok VNull
      | Some token => try_catch (payload_user token) (Ok VNull)
      end
  end.

Definition isAuthenticated_in (localStorage : global_storage) : result bool :=
  user <- getCurrentUser_in localStorage ;;
  Ok (negb (is_null user)).

(** The environments of [getCurrentUser] above: the global is not
    defined, or is a storage that holds [items] and never throws. *)
Definition usable (localStorage : option Storage) : global_storage :=
  match localStorage with
  | None => NotDefined
  | Some items => StorageObject (fun key => Ok (getItem items key))
  end.

(** * Notions used by the statements *)

(** ** Tactics and an induction principle *)

(** Case analysis on the comparisons of a goal, arithmetic closing the
    impossible branches. *)
Ltac case_N :=
  match goal with
  | |- context [N.leb ?a ?b] => destruct (N.leb_spec a b)
  | |- context [N.ltb ?a ?b] => destruct (N.ltb_spec a b)
  | |- context [N.eqb ?a ?b] => destruct (N.eqb_spec a b)
  end.
Ltac cases_N := repeat (case_N; try lia); cbn [andb orb negb]; try lia.

(** Induction on a list three elements at a time, as Base64 reads it. *)
Section ListBy3.
Variable A : Type.
Variable P : list A -> Prop.
Hypothesis P0 : P [].
Hypothesis P1 : forall a, P [a].
Hypothesis P2 : forall a b, P [a; b].
Hypothesis P3 : forall a b c l, P l -> P (a :: b :: c :: l).

Fixpoint list_ind_by3 (l : list A) : P l :=
  match l with
  | [] => P0
  | [a] => P1 a
  | [a; b] => P2 a b
  | a :: b :: c :: r => P3 a b c r (list_ind_by3 r)
  end.
End ListBy3.

Ltac div_lia := Z.to_euclidean_division_equations; lia.

(** ** Rounding *)

Module Binary64Spec.

(** Whether the remainder [rem] below [2^sh] rounds the significand [q]
    up. *)
Definition rounds_up (sh q rem : Z) : bool :=
  ((2 ^ (sh - 1) <? rem) || ((rem =? 2 ^ (sh - 1)) && Z.odd q))%Z.

End Binary64Spec.

(** ** Base64 and JSON text *)

Module Base64Spec.
Import Base64.

(** The six-bit groups of the bytes, without the padding. *)
Fixpoint groups (bs : list N) : list N :=
  match bs with
  | [] => []
  | [a] => [a / 4; (a mod 4) * 16]
  | [a; b] => [a / 4; (a mod 4) * 16 + b / 16; (b mod 16) * 4]
  | a :: b :: c :: rest =>
      a / 4 :: (a mod 4) * 16 + b / 16 :: (b mod 16) * 4 + c / 64 :: c mod 64
      :: groups rest
  end.

Definition padding (bs : list N) : jsstring :=
  match (length bs mod 3)%nat with
  | 1%nat => [pad; pad]
  | 2%nat => [pad]
  | _ => []
  end.

End Base64Spec.

Module JSONSpec.
Import JSON.

Definition is_surrogate (c : code_unit) : bool :=
  is_high_surrogate c || is_low_surrogate c.

(** What may follow a number without being read as part of it. *)
Definition ends_number (c : code_unit) : bool :=
  negb (is_digit c || (c =? 46) || (c =? 101) || (c =? 69)).

Definition number_end (rest : jsstring) : bool :=
  match rest with
  | [] => true
  | c :: _ => ends_number c
  end.

(** A Number that is an integer, and not a negative zero. *)
Definition canonical (x : number) : bool :=
  (exponent10 x =? 0)%Z && negb (negative x && (mantissa x =? 0)).

Fixpoint distinct (keys : list jsstring) : bool :=
  match keys with
  | [] => true
  | k :: rest => negb (existsb (jsstring_eqb k) rest) && distinct rest
  end.

(** The values that JSON text denotes one to one: nothing [undefined],
    integer Numbers, objects without a repeated key. *)
Fixpoint plain (v : value) : bool :=
  match v with
  | VUndefined => false
  | VNull | VBool _ | VStr _ => true
  | VNum x => canonical x
  | VArr elements => forallb plain elements
  | VObj ps => forallb (fun kv => plain (snd kv)) ps && distinct (map fst ps)
  end.

(** A key written in digits only; JavaScript lists the array indices
    among them before the other keys. *)
Definition digits_only (key : jsstring) : bool :=
  match key with
  | [] => false
  | _ :: _ => forallb is_digit key
  end.

(** The values whose text here is the text of JavaScript: every Number
    is below 2^53 in magnitude, where integers are exact and printed in
    digits, and no key is written in digits only. *)
Fixpoint safe (v : value) : bool :=
  match v with
  | VNum x => mantissa x <? 2 ^ 53
  | VArr elements => forallb safe elements
  | VObj ps => forallb (fun kv => negb (digits_only (fst kv)) && safe (snd kv)) ps
  | _ => true
  end.

(** Fuel that [parse_value] needs to read a value back. *)
Fixpoint need (v : value) : nat :=
  match v with
  | VArr elements => S (fold_right (fun x n => S (Nat.max (need x) n)) O elements)
  | VObj ps => S (fold_right (fun kv n => S (Nat.max (need (snd kv)) n)) O ps)
  | _ => 1
  end.

Definition element_text (x : value) : jsstring :=
  match serialize x with
  | Some t => t
  | None => lit "null"
  end.

Definition member_text (kv : jsstring * value) : list jsstring :=
  match serialize (snd kv) with
  | Some t => [quote (fst kv) ++ 58 :: t]
  | None => []
  end.

(** Induction on a value, with the hypothesis for every element of an
    array and every property of an object. *)
Section ValueInd.
Variable P : value -> Prop.
Hypothesis Pundefined : P VUndefined.
Hypothesis Pnull : P VNull.
Hypothesis Pbool : forall b, P (VBool b).
Hypothesis Pnum : forall x, P (VNum x).
Hypothesis Pstr : forall s, P (VStr s).
Hypothesis Parr : forall elements, Forall P elements -> P (VArr elements).
Hypothesis Pobj : forall ps, Forall (fun kv => P (snd kv)) ps -> P (VObj ps).

Fixpoint value_nested_ind (v : value) : P v :=
  match v with
  | VUndefined => Pundefined
  | VNull => Pnull
  | VBool b => Pbool b
  | VNum x => Pnum x
  | VStr s => Pstr s
  | VArr elements =>
      Parr elements
        ((fix all (l : list value) : Forall P l :=
            match l with
            | [] => Forall_nil P
            | x :: r => Forall_cons x (value_nested_ind x) (all r)
            end) elements)
  | VObj ps =>
      Pobj ps
        ((fix all (l : props) : Forall (fun kv => P (snd kv)) l :=
            match l with
            | [] => Forall_nil _
            | kv :: r => Forall_cons kv (value_nested_ind (snd kv)) (all r)
            end) ps)
  end.
End ValueInd.

(** The first character of a serialized value starts a value. *)
Definition starts_value (t : jsstring) : Prop :=
  exists c r, t = c :: r /\ is_ws c = false /\ (c =? 93) = false /\ (c =? 125) = false.

(** [t] is read back as [x], whatever follows. *)
Definition reads (x : value) (t : jsstring) : Prop :=
  forall fuel rest,
    (need x <= fuel)%nat -> number_end rest = true ->
    parse_value fuel (t ++ rest) = Some (x, rest).

Definition elements_need (l : list value) : nat :=
  fold_right (fun x n => S (Nat.max (need x) n)) O l.

Definition members_need (ps : props) : nat :=
  fold_right (fun kv n => S (Nat.max (need (snd kv)) n)) O ps.

(** [m] is the text of the property [kv]. *)
Definition reads_member (kv : list N * value) (m : jsstring) : Prop :=
  exists t, m = quote (fst kv) ++ 58 :: t /\ reads (snd kv) t.

(** A plain value has a text, long enough to be the fuel, that reads
    back as the value. *)
Definition reads_back (v : value) : Prop :=
  plain v = true ->
  exists text,
    serialize v = Some text /\ (need v <= length text)%nat /\ reads v text.

End JSONSpec.

(** ** What [generateMockToken] can encode *)

(** A string whose JSON text [btoa] accepts: each code unit is at most
    U+00FF or is a lone surrogate, which JSON text escapes. *)
Definition encodable (s : jsstring) : bool := is_latin1 (JSON.quote_units s).

Definition User_encodable (u : User) : bool :=
  encodable (id u) && encodable (email u) && encodable (name u)
  && encodable (memberSince u).


(** A well-formed [User], as a run-time value: an object that has the
    five properties of the interface, each a string, the membership one of
    the three; other properties and any order are allowed. *)
Definition is_string (v : value) : bool :=
  match v with
  | VStr _ => true
  | _ => false
  end.

Definition is_membership (v : value) : bool :=
  match v with
  | VStr s =>
      jsstring_eqb s (lit "basic") || jsstring_eqb s (lit "premium")
      || jsstring_eqb s (lit "elite")
  | _ => false
  end.

Definition is_User (v : value) : bool :=
  match v with
  | VObj ps =>
      match get_own (lit "id") ps, get_own (lit "email") ps,
            get_own (lit "name") ps, get_own (lit "membershipType") ps,
            get_own (lit "memberSince") ps with
      | Some i, Some e, Some n, Some m, Some d =>
          is_string i && is_string e && is_string n && is_membership m
          && is_string d
      | _, _, _, _, _ => false
      end
  | _ => false
  end.

(** The storage is unavailable: the global is not defined, cannot be
    read, or has no [getItem]. *)
Definition unavailable (localStorage : global_storage) : Prop :=
  match localStorage with
  | NotDefined | ReadThrows _ | NoGetItem => True
  | StorageObject _ => False
  end.

(** What reading the token from the storage comes to: the test of line
    141 and the call of line 145. *)
Definition storage_read (localStorage : global_storage)
  : result (option jsstring) :=
  match localStorage with
  | NotDefined => Ok None
  | ReadThrows e => Throw e
  | NoGetItem => Throw TypeError
  | StorageObject getItem => getItem (lit "auth_token")
  end.

(** A parse result that is not [undefined]. *)
Definition defined (res : option (value * list N)) : Prop :=
  match res with
  | Some (v, _) => v <> VUndefined
  | None => True
  end.

(** Whether a parsed payload has a property of its own under [key]. *)
Definition has_own (payload : value) (key : jsstring) : bool :=
  match payload with
  | VObj ps => match get_own key ps with
               | Some _ => true
               | None => false
               end
  | _ => false
  end.

(** A storage that holds [token] under the key of the session. *)
Definition stored (token : jsstring) : option Storage :=
  Some [(lit "auth_token", token)].

(** The first segment of every token: the Base64 of the JSON text of
    [{ alg: 'HS256', typ: 'JWT' }]. *)
Definition header_segment : jsstring := lit "eyJhbGciOiJIUzI1NiIsInR5cCI6IkpXVCJ9".

(** A character that [atob] neither skips nor reads: no white space, no
    [=], and not of the alphabet; [-] and [_] of Base64url are such. *)
Definition base64_foreign (c : code_unit) : bool :=
  negb (Base64.is_ascii_whitespace c) && negb (c =? Base64.pad)
  && match Base64.index_of c with
     | Some _ => false
     | None => true
     end.

(** [JSON.parse(atob(token.split('.')[1]))], the payload that
    [payload_user] reads [user] from. *)
Definition token_payload (token : jsstring) : result value :=
  decoded <- atob (DOMString (nth_error (split dot token) 1)) ;;
  JSON.parse decoded.

(** ** Sample inputs *)

(** The draw 1/2. *)
Definition half : Binary64.t := Binary64.Make 1 1.

(** The user [login] makes for [a@b.com]. *)
Definition jane : User :=
  {| id := lit "user-123";
     email := lit "a@b.com";
     name := lit "Jane Doe";
     membershipType := premium;
     memberSince := lit "2024-01-15" |}.

(** An email address with U+0142, a letter outside Latin-1. *)
Definition polish_email : jsstring := 322%N :: lit "ukasz@b.com".

(** The user [login] makes for [polish_email]. *)
Definition lukasz : User :=
  {| id := lit "user-123";
     email := polish_email;
     name := lit "Jane Doe";
     membershipType := premium;
     memberSince := lit "2024-01-15" |}.

(** The header and the payload of a token for [jane], without the
    signature segment. *)
Definition unsigned_token : jsstring :=
  lit "eyJhbGciOiJIUzI1NiIsInR5cCI6IkpXVCJ9.eyJ1c2VyIjp7ImlkIjoidXNlci0xMjMiLCJlbWFpbCI6ImFAYi5jb20iLCJuYW1lIjoiSmFuZSBEb2UiLCJtZW1iZXJzaGlwVHlwZSI6InByZW1pdW0iLCJtZW1iZXJTaW5jZSI6IjIwMjQtMDEtMTUifSwiZXhwIjoxNzAwMDAzNjAwMDAwfQ==".

(** The token [login] makes for [a@b.com] at time 1700000000000. *)
Definition jane_token : jsstring := unsigned_token ++ lit ".mock-signature".

(** The payload segment of [jane_token]. *)
Definition jane_segment : jsstring :=
  lit "eyJ1c2VyIjp7ImlkIjoidXNlci0xMjMiLCJlbWFpbCI6ImFAYi5jb20iLCJuYW1lIjoiSmFuZSBEb2UiLCJtZW1iZXJzaGlwVHlwZSI6InByZW1pdW0iLCJtZW1iZXJTaW5jZSI6IjIwMjQtMDEtMTUifSwiZXhwIjoxNzAwMDAzNjAwMDAwfQ==".

(** A token whose payload is [{"user":{"id":7}}]. *)
Definition partial_token : jsstring := lit "x.eyJ1c2VyIjp7ImlkIjo3fX0=.y".

(** A token whose payload is [{}]. *)
Definition empty_token : jsstring := lit "x.e30=.y".

(** A token whose payload is [null]. *)
Definition null_token : jsstring := lit "x.bnVsbA==.y".

(** * Properties *)

(** ** Base64 *)

Module Base64Facts.
Import Base64 Base64Spec.

Lemma index_of_char_of i : i < 64 -> index_of (char_of i) = Some i.
Proof.
  intros Hi. unfold char_of, index_of.
  cases_N; try (f_equal; lia).
Qed.

Lemma char_of_plain i :
  is_ascii_whitespace (char_of i) = false /\ char_of i <> pad
  /\ char_of i <> dot /\ char_of i <= 255.
Proof.
  unfold char_of, is_ascii_whitespace, pad, dot. cases_N; repeat split; lia.
Qed.

Lemma padding_step a b c bs : padding (a :: b :: c :: bs) = padding bs.
Proof.
  unfold padding. replace (length (a :: b :: c :: bs)) with (length bs + 1 * 3)%nat
    by (simpl; lia).
  now rewrite Nat.Div0.mod_add.
Qed.

Lemma encode_groups bs : encode bs = map char_of (groups bs) ++ padding bs.
Proof.
  induction bs as [| a | a b | a b c bs IH] using list_ind_by3; try reflexivity.
  rewrite padding_step. cbn [encode groups map app]. now rewrite IH.
Qed.

Lemma groups_bound bs :
  is_latin1 bs = true -> Forall (fun i => i < 64) (groups bs).
Proof.
  unfold is_latin1.
  induction bs as [| a | a b | a b c bs IH] using list_ind_by3;
    cbn [forallb groups]; intros H;
    repeat (apply andb_prop in H; destruct H as [?%N.leb_le H]);
    repeat constructor; auto; zify; div_lia.
Qed.

Lemma decode_groups bs : is_latin1 bs = true -> decode (groups bs) = bs.
Proof.
  unfold is_latin1.
  induction bs as [| a | a b | a b c bs IH] using list_ind_by3;
    cbn [forallb groups decode]; intros H;
    repeat (apply andb_prop in H; destruct H as [?%N.leb_le H]);
    rewrite ?IH by assumption; repeat f_equal; zify; div_lia.
Qed.

Lemma sextets_chars xs :
  Forall (fun i => i < 64) xs -> sextets (map char_of xs) = Some xs.
Proof.
  induction 1 as [| i xs Hi _ IH]; [reflexivity|].
  cbn [map sextets]. now rewrite index_of_char_of, IH.
Qed.

Lemma strip_padding_plain l t :
  Forall (fun c => c <> pad) l -> strip_padding (l ++ t) = l ++ strip_padding t.
Proof.
  induction 1 as [| x l Hx Hl IH]; [reflexivity|].
  cbn [app]. rewrite <- IH. cbn [strip_padding].
  destruct (N.eqb_spec x pad) as [->|_]; [contradiction|].
  destruct (l ++ t) as [| y [| z r]]; cbn [andb]; reflexivity.
Qed.

Lemma strip_padding_padding bs : strip_padding (padding bs) = [].
Proof. unfold padding. destruct (_ mod 3)%nat as [| [| [| n]]]; reflexivity. Qed.

Lemma chars_plain xs :
  Forall (fun c => c <> pad) (map char_of xs)
  /\ filter (fun c => negb (is_ascii_whitespace c)) (map char_of xs) = map char_of xs
  /\ Forall (fun c => c <> dot) (map char_of xs)
  /\ is_latin1 (map char_of xs) = true.
Proof.
  induction xs as [| i xs (IH1 & IH2 & IH3 & IH4)]; [repeat split; constructor|].
  destruct (char_of_plain i) as (Hw & Hp & Hd & Hl).
  cbn [map filter is_latin1 forallb]. rewrite Hw. cbn [negb].
  repeat split; try constructor; auto.
  - now rewrite IH2.
  - apply andb_true_intro; split; [now apply N.leb_le | exact IH4].
Qed.

Lemma length_encode bs : (length (encode bs) mod 4 = 0)%nat.
Proof.
  induction bs as [| a | a b | a b c bs IH] using list_ind_by3; try reflexivity.
  cbn [encode length].
  replace (S (S (S (S (length (encode bs)))))) with (length (encode bs) + 1 * 4)%nat by lia.
  now rewrite Nat.Div0.mod_add.
Qed.

Lemma length_groups bs : (length (groups bs) mod 4 <> 1)%nat.
Proof.
  induction bs as [| a | a b | a b c bs IH] using list_ind_by3;
    try (cbn; discriminate).
  cbn [groups length].
  replace (S (S (S (S (length (groups bs)))))) with (length (groups bs) + 1 * 4)%nat by lia.
  now rewrite Nat.Div0.mod_add.
Qed.

Lemma N_of_nat_mod4 n : N.of_nat n mod 4 = N.of_nat (n mod 4).
Proof. now rewrite Nat2N.inj_mod. Qed.

(** [atob] inverts the encoding of Latin-1 text. *)
Lemma atob_encode bs : is_latin1 bs = true -> atob (encode bs) = Ok bs.
Proof.
  intros Hl. unfold atob. cbv zeta.
  assert (Hf : filter (fun c => negb (is_ascii_whitespace c)) (encode bs) = encode bs).
  { rewrite encode_groups, filter_app.
    destruct (chars_plain (groups bs)) as (_ & -> & _). f_equal.
    unfold padding. destruct (_ mod 3)%nat as [| [| [| n]]]; reflexivity. }
  assert (E : N.of_nat (length (encode bs)) mod 4 = 0)
    by now rewrite N_of_nat_mod4, length_encode.
  rewrite Hf, E. cbn [N.eqb].
  rewrite encode_groups, strip_padding_plain by apply chars_plain.
  rewrite strip_padding_padding, app_nil_r, N_of_nat_mod4, length_map.
  pose proof (length_groups bs) as Hg.
  destruct (N.eqb_spec (N.of_nat (length (groups bs) mod 4)) 1) as [E1|_]; [lia|].
  rewrite sextets_chars by now apply groups_bound.
  now rewrite decode_groups.
Qed.

Lemma btoa_atob s t : btoa s = Ok t -> atob t = Ok s.
Proof.
  unfold btoa. destruct (is_latin1 s) eqn:E; [|discriminate].
  intros [= <-]. now apply atob_encode.
Qed.

Lemma encode_no_dot bs : Forall (fun c => c <> dot) (encode bs).
Proof.
  rewrite encode_groups. apply Forall_app; split; [apply chars_plain|].
  unfold padding, pad, dot.
  destruct (_ mod 3)%nat as [| [| [| n]]]; repeat constructor; lia.
Qed.
Lemma btoa_no_dot s t : btoa s = Ok t -> Forall (fun c => c <> dot) t.
Proof.
  unfold btoa. destruct (is_latin1 s); [|discriminate].
  intros [= <-]. apply encode_no_dot.
Qed.

End Base64Facts.

(** ** [split] *)

Lemma split_from_segment sep cur a rest :
  Forall (fun c => c <> sep) a ->
  split_from sep cur (a ++ sep :: rest) = (rev cur ++ a) :: split_from sep [] rest.
Proof.
  intros Ha. revert cur.
  induction Ha as [| c a Hc _ IH]; intros cur; cbn [app split_from].
  - now rewrite N.eqb_refl, app_nil_r.
  - destruct (N.eqb_spec c sep) as [->|_]; [contradiction|].
    rewrite IH. cbn [rev]. now rewrite <- app_assoc.
Qed.

Lemma split_second sep a b c :
  Forall (fun x => x <> sep) a -> Forall (fun x => x <> sep) b ->
  nth_error (split sep (a ++ sep :: b ++ sep :: c)) 1 = Some b.
Proof.
  intros Ha Hb. unfold split.
  rewrite split_from_segment by assumption.
  cbn [rev app nth_error]. now rewrite split_from_segment by assumption.
Qed.

Lemma split_from_nonempty sep cur s : split_from sep cur s <> [].
Proof.
  revert cur. induction s as [| c s IH]; intros cur; cbn [split_from]; [discriminate|].
  destruct (c =? sep); [discriminate | apply IH].
Qed.

(** A token without two segments has no second one. *)
Lemma split_short sep s :
  (length (split sep s) < 2)%nat -> nth_error (split sep s) 1 = None.
Proof. intros H. apply nth_error_None. lia. Qed.

(** ** JSON strings and numbers *)

Module JSONFacts.
Import JSON JSONSpec.

Lemma hex_value_char d : d < 16 -> hex_value (hex_char d) = Some d.
Proof.
  intros Hd. unfold hex_value, hex_char, is_digit.
  cases_N; f_equal; lia.
Qed.

Lemma parse_chars_escape c t :
  c < 65536 -> parse_chars (unicode_escape c ++ t) = cons_fst c (parse_chars t).
Proof.
  intros Hc. unfold unicode_escape. cbn [app parse_chars].
  change (backslash =? quote_mark) with false.
  change (backslash =? backslash) with true.
  change (117 =? 117) with true. cbv iota.
  unfold hex4. rewrite !hex_value_char by (zify; div_lia).
  replace (c / 4096 * 4096 + c / 256 mod 16 * 256 + c / 16 mod 16 * 16 + c mod 16)
    with c by (zify; div_lia).
  reflexivity.
Qed.

Lemma parse_chars_unit c t :
  is_surrogate c = false ->
  parse_chars (quote_unit c ++ t) = cons_fst c (parse_chars t).
Proof.
  unfold is_surrogate, is_high_surrogate, is_low_surrogate. intros Hs.
  unfold quote_unit.
  destruct (N.ltb_spec c 32) as [Hlt|Hge].
  - repeat (case_N; [subst c; reflexivity|]).
    apply parse_chars_escape. lia.
  - repeat (case_N; [subst c; try reflexivity; lia|]).
    cbn [app parse_chars].
    destruct (N.eqb_spec c quote_mark); [contradiction|].
    destruct (N.eqb_spec c backslash); [contradiction|].
    destruct (N.ltb_spec c 32); [lia|]. reflexivity.
Qed.

Lemma parse_chars_literal c t :
  is_surrogate c = true -> parse_chars (c :: t) = cons_fst c (parse_chars t).
Proof.
  unfold is_surrogate, is_high_surrogate, is_low_surrogate, quote_mark, backslash.
  intros Hs. cbn [parse_chars]. unfold quote_mark, backslash.
  revert Hs. cases_N; try discriminate; reflexivity.
Qed.

Lemma surrogate_bound c : is_surrogate c = true -> c < 65536.
Proof.
  unfold is_surrogate, is_high_surrogate, is_low_surrogate.
  cases_N; discriminate.
Qed.

Lemma parse_chars_quote_bounded n : forall s rest,
  (length s <= n)%nat ->
  parse_chars (quote_units s ++ quote_mark :: rest) = Some (s, rest).
Proof.
  induction n as [| n IH]; intros s rest Hn.
  - destruct s; [reflexivity | cbn in Hn; lia].
  - destruct s as [| c r]; [reflexivity|]. cbn [length] in Hn.
    cbn [quote_units].
    destruct (is_high_surrogate c) eqn:Hh.
    + assert (Hc : is_surrogate c = true) by (unfold is_surrogate; now rewrite Hh).
      destruct r as [| d r'].
      * rewrite parse_chars_escape by now apply surrogate_bound. reflexivity.
      * destruct (is_low_surrogate d) eqn:Hd.
        -- assert (Hd' : is_surrogate d = true)
             by (unfold is_surrogate; rewrite Hd; apply orb_true_r).
           cbn [app]. rewrite (parse_chars_literal _ _ Hc), (parse_chars_literal _ _ Hd').
           rewrite IH by (cbn [length] in Hn; lia). reflexivity.
        -- rewrite <- app_assoc, parse_chars_escape by now apply surrogate_bound.
           rewrite IH by lia. reflexivity.
    + destruct (is_low_surrogate c) eqn:Hl.
      * assert (Hc : is_surrogate c = true)
          by (unfold is_surrogate; rewrite Hl; apply orb_true_r).
        rewrite <- app_assoc, parse_chars_escape by now apply surrogate_bound.
        rewrite IH by lia. reflexivity.
      * assert (Hc : is_surrogate c = false) by (unfold is_surrogate; now rewrite Hh, Hl).
        rewrite <- app_assoc, parse_chars_unit by assumption.
        rewrite IH by lia. reflexivity.
Qed.

(** Reading back a quoted string gives the string, whatever its code
    units. *)
Lemma parse_chars_quote s rest :
  parse_chars (quote_units s ++ quote_mark :: rest) = Some (s, rest).
Proof. now apply (parse_chars_quote_bounded (length s)). Qed.

End JSONFacts.

Module NumberFacts.
Import JSON JSONSpec.

Lemma is_digit_char d : d < 10 -> is_digit (digit_char d) = true.
Proof. intros Hd. unfold is_digit, digit_char. cases_N; reflexivity. Qed.

Lemma pow2_succ fuel : 2 ^ N.of_nat (S fuel) = 2 * 2 ^ N.of_nat fuel.
Proof. rewrite Nat2N.inj_succ. apply N.pow_succ_r'. Qed.

Lemma N_of_digits_snoc ds d :
  N_of_digits (ds ++ [d]) = 10 * N_of_digits ds + (d - 48).
Proof. unfold N_of_digits. now rewrite fold_left_app. Qed.

(** With enough fuel the digits of a positive number start with a
    digit other than 0, are all digits, and denote the number. *)
Lemma digits_fuel_spec fuel : forall n acc,
  n < 2 ^ N.of_nat fuel -> 0 < n ->
  exists d ds,
    digits_fuel fuel n acc = d :: ds ++ acc
    /\ is_digit d = true /\ d <> 48 /\ forallb is_digit ds = true
    /\ N_of_digits (d :: ds) = n.
Proof.
  induction fuel as [| fuel IH]; intros n acc Hn Hpos.
  - cbn in Hn. lia.
  - cbn [digits_fuel]. rewrite pow2_succ in Hn.
    destruct (N.ltb_spec n 10) as [Hlt|Hge].
    + exists (digit_char n), []. repeat split.
      * now apply is_digit_char.
      * unfold digit_char. lia.
      * unfold N_of_digits, digit_char. cbn [fold_left]. lia.
    + destruct (IH (n / 10) (digit_char (n mod 10) :: acc)) as (d & ds & E & Hd & Hz & Hds & Hv).
      * zify; div_lia.
      * zify; div_lia.
      * exists d, (ds ++ [digit_char (n mod 10)]). repeat split; auto.
        -- rewrite E. cbn [app]. now rewrite <- app_assoc.
        -- rewrite forallb_app, Hds. cbn [forallb].
           rewrite is_digit_char by (zify; div_lia). reflexivity.
        -- rewrite app_comm_cons, N_of_digits_snoc, Hv.
           unfold digit_char. zify; div_lia.
Qed.

Lemma digits_zero : digits 0 = [48].
Proof. reflexivity. Qed.

Lemma digits_positive n :
  0 < n ->
  exists d ds,
    digits n = d :: ds /\ is_digit d = true /\ d <> 48
    /\ forallb is_digit ds = true /\ N_of_digits (d :: ds) = n.
Proof.
  intros Hpos. unfold digits.
  destruct (digits_fuel_spec (S (N.to_nat (N.log2 n))) n []) as (d & ds & E & H);
    [| assumption |].
  - rewrite Nat2N.inj_succ, N2Nat.id. now apply N.log2_spec.
  - exists d, ds. rewrite E, app_nil_r. auto.
Qed.

Lemma number_end_spec rest :
  number_end rest = true ->
  rest = [] \/ exists c r, rest = c :: r /\ is_digit c = false /\ (c =? 46) = false
                          /\ ((c =? 101) || (c =? 69)) = false.
Proof.
  intros H. destruct rest as [| c r]; [now left|]. right. exists c, r.
  unfold number_end, ends_number in H.
  destruct (is_digit c), (c =? 46), (c =? 101), (c =? 69); cbn in H;
    try discriminate; auto.
Qed.

Lemma take_digits_all ds rest :
  forallb is_digit ds = true -> number_end rest = true ->
  take_digits (ds ++ rest) = (ds, rest).
Proof.
  intros Hds Hr. induction ds as [| d ds IH]; cbn [app take_digits].
  - destruct (number_end_spec rest Hr) as [->|(c & r & -> & Hc & _)]; [reflexivity|].
    cbn [take_digits]. now rewrite Hc.
  - cbn [forallb] in Hds. apply andb_prop in Hds as [Hd Hds].
    now rewrite Hd, IH.
Qed.

Lemma parse_int_digits n rest :
  number_end rest = true ->
  parse_int (digits n ++ rest) = Some (digits n, rest).
Proof.
  intros Hr. destruct (N.eq_dec n 0) as [->|Hn].
  - reflexivity.
  - destruct (digits_positive n) as (d & ds & E & Hd & Hz & Hds & _); [lia|].
    rewrite E. cbn [app parse_int].
    destruct (N.eqb_spec d 48); [contradiction|].
    now rewrite Hd, take_digits_all.
Qed.

Lemma parse_frac_absent rest :
  number_end rest = true -> parse_frac rest = Some ([], rest).
Proof.
  intros Hr. destruct (number_end_spec rest Hr) as [->|(c & r & -> & _ & H & _)];
    [reflexivity|].
  unfold parse_frac. now rewrite H.
Qed.

Lemma parse_exp_absent rest :
  number_end rest = true -> parse_exp rest = Some (0%Z, rest).
Proof.
  intros Hr. destruct (number_end_spec rest Hr) as [->|(c & r & -> & _ & _ & H)];
    [reflexivity|].
  unfold parse_exp. now rewrite H.
Qed.

Lemma N_of_digits_digits n : N_of_digits (digits n) = n.
Proof.
  destruct (N.eq_dec n 0) as [->|Hn]; [reflexivity|].
  destruct (digits_positive n) as (d & ds & E & _ & _ & _ & Hv); [lia|].
  now rewrite E.
Qed.

Lemma digits_head n : exists d ds, digits n = d :: ds /\ is_digit d = true.
Proof.
  destruct (N.eq_dec n 0) as [->|Hn]; [now exists 48, []|].
  destruct (digits_positive n) as (d & ds & E & Hd & _); [lia|].
  now exists d, ds.
Qed.

Lemma is_digit_range d : is_digit d = true -> 48 <= d <= 57.
Proof.
  unfold is_digit. intros H. apply andb_prop in H as [H1%N.leb_le H2%N.leb_le]. lia.
Qed.

(** The text of an integer reads back as the integer. *)
Lemma parse_number_integer z rest :
  number_end rest = true ->
  parse_number (number_to_string (number_of_Z z) ++ rest)
  = Some (number_of_Z z, rest).
Proof.
  intros Hr.
  unfold number_to_string, number_of_Z. cbn [negative mantissa exponent10].
  change (0 =? 0)%Z with true. cbv iota. rewrite app_nil_r.
  assert (Hparse : forall neg : bool,
    match parse_int (digits (Z.abs_N z) ++ rest) with
    | None => None
    | Some (ip, s2) =>
        match parse_frac s2 with
        | None => None
        | Some (fp, s3) =>
            match parse_exp s3 with
            | None => None
            | Some (e, s4) =>
                Some ({| negative := neg; mantissa := N_of_digits (ip ++ fp);
                         exponent10 := (e - Z.of_nat (length fp))%Z |}, s4)
            end
        end
    end
    = Some ({| negative := neg; mantissa := Z.abs_N z; exponent10 := 0%Z |}, rest)).
  { intros neg. rewrite parse_int_digits by assumption.
    rewrite parse_frac_absent, parse_exp_absent by assumption.
    now rewrite app_nil_r, N_of_digits_digits. }
  unfold parse_number.
  destruct (Z.ltb_spec z 0) as [Hneg|Hpos].
  - replace (negb (Z.abs_N z =? 0)) with true
      by (symmetry; apply negb_true_iff, N.eqb_neq; lia).
    cbn [andb app]. change (45 =? 45) with true. cbv iota. apply Hparse.
  - cbn [andb app].
    destruct (digits_head (Z.abs_N z)) as (d & ds & E & Hdig).
    specialize (Hparse false). rewrite E in *. cbn [app] in *.
    replace (d =? 45) with false; [exact Hparse|].
    symmetry. apply N.eqb_neq. apply is_digit_range in Hdig. lia.
Qed.

End NumberFacts.

(** ** [JSON.parse] after [JSON.stringify] *)

Module RoundTrip.
Import JSON JSONSpec JSONFacts NumberFacts.

Lemma skip_ws_head c r : is_ws c = false -> skip_ws (c :: r) = c :: r.
Proof. intros H. cbn [skip_ws]. now rewrite H. Qed.

Lemma parse_value_step fuel s :
  parse_value (S fuel) s =
  match skip_ws s with
  | [] => None
  | c :: r =>
      if c =? 123 then
        match skip_ws r with
        | d :: r' => if d =? 125 then Some (VObj [], r')
                     else parse_members fuel (skip_ws r) []
        | [] => None
        end
      else if c =? 91 then
        match skip_ws r with
        | d :: r' => if d =? 93 then Some (VArr [], r')
                     else parse_elements fuel (skip_ws r) []
        | [] => None
        end
      else if c =? quote_mark then
        match parse_chars r with
        | Some (str, rest) => Some (VStr str, rest)
        | None => None
        end
      else if (c =? 45) || is_digit c then
        match parse_number (c :: r) with
        | Some (x, rest) => Some (VNum x, rest)
        | None => None
        end
      else
        match strip_prefix (lit "null") (c :: r) with
        | Some rest => Some (VNull, rest)
        | None =>
            match strip_prefix (lit "true") (c :: r) with
            | Some rest => Some (VBool true, rest)
            | None =>
                match strip_prefix (lit "false") (c :: r) with
                | Some rest => Some (VBool false, rest)
                | None => None
                end
            end
        end
  end.
Proof. reflexivity. Qed.

Lemma parse_elements_step fuel s acc :
  parse_elements (S fuel) s acc =
  match parse_value fuel s with
  | None => None
  | Some (v, r) =>
      match skip_ws r with
      | c :: r' =>
          if c =? 44 then parse_elements fuel r' (v :: acc)
          else if c =? 93 then Some (VArr (rev (v :: acc)), r')
          else None
      | [] => None
      end
  end.
Proof. reflexivity. Qed.

Lemma parse_members_step fuel s acc :
  parse_members (S fuel) s acc =
  match skip_ws s with
  | q :: r0 =>
      if q =? quote_mark then
        match parse_chars r0 with
        | None => None
        | Some (key, r1) =>
            match skip_ws r1 with
            | colon :: r2 =>
                if colon =? 58 then
                  match parse_value fuel r2 with
                  | None => None
                  | Some (v, r3) =>
                      match skip_ws r3 with
                      | c :: r4 =>
                          if c =? 44 then parse_members fuel r4 (set_own key v acc)
                          else if c =? 125 then Some (VObj (set_own key v acc), r4)
                          else None
                      | [] => None
                      end
                  end
                else None
            | [] => None
            end
        end
      else None
  | [] => None
  end.
Proof. reflexivity. Qed.

Lemma canonical_of_Z x :
  canonical x = true ->
  x = number_of_Z (if negative x then - Z.of_N (mantissa x) else Z.of_N (mantissa x)).
Proof.
  destruct x as [neg m e]. unfold canonical, number_of_Z. cbn [negative mantissa exponent10].
  intros H. apply andb_prop in H as [He%Z.eqb_eq Hz]. subst e.
  destruct neg; cbn [andb negb] in *.
  - apply negb_true_iff, N.eqb_neq in Hz.
    f_equal; [symmetry; apply Z.ltb_lt; lia | lia].
  - f_equal; [symmetry; apply Z.ltb_ge; lia | lia].
Qed.

Lemma serialize_starts v t : serialize v = Some t -> starts_value t.
Proof.
  unfold starts_value.
  destruct v as [| | [|] | x | s | l | ps]; cbn [serialize]; intros [= <-];
    try (eexists _, _; repeat split; reflexivity).
  unfold number_to_string.
  destruct (negative x && negb (mantissa x =? 0)).
  - eexists _, _; repeat split; reflexivity.
  - destruct (digits_head (mantissa x)) as (d & ds & E & Hd%is_digit_range).
    rewrite E. cbn [app]. eexists _, _; split; [reflexivity|].
    unfold is_ws. cases_N; auto.
Qed.

Lemma parse_elements_join l ts :
  Forall2 reads l ts -> l <> [] ->
  forall fuel acc rest,
    (elements_need l <= fuel)%nat ->
    parse_elements fuel (join [44] ts ++ 93 :: rest) acc
    = Some (VArr (rev acc ++ l), rest).
Proof.
  induction 1 as [| x t l ts Hx Hl IH]; [congruence|]. intros _ fuel acc rest Hf.
  cbn [elements_need fold_right] in Hf. fold (elements_need l) in Hf.
  destruct fuel as [| fuel]; [lia|]. rewrite parse_elements_step.
  destruct Hl as [| y u l ts Hy Hl].
  - cbn [join]. rewrite Hx by (try reflexivity; lia).
    rewrite skip_ws_head by reflexivity.
    change (93 =? 44) with false. change (93 =? 93) with true. cbv iota.
    reflexivity.
  - change (join [44] (t :: u :: ts)) with (t ++ [44] ++ join [44] (u :: ts)).
    rewrite <- !app_assoc. cbn [app]. rewrite Hx by (try reflexivity; lia).
    rewrite skip_ws_head by reflexivity.
    change (44 =? 44) with true. cbv iota.
    rewrite IH by (try discriminate; lia).
    cbn [rev]. now rewrite <- app_assoc.
Qed.

Lemma elements_need_length l ts :
  Forall2 (fun x t => (need x <= length t)%nat) l ts -> l <> [] ->
  (elements_need l <= S (length (join [44%N] ts)))%nat.
Proof.
  induction 1 as [| x t l ts Hx Hl IH]; [congruence|]. intros _. cbv beta in Hx.
  cbn [elements_need fold_right]. fold (elements_need l).
  destruct Hl as [| y u l ts Hy Hl].
  - cbn [elements_need fold_right join]. lia.
  - change (join [44] (t :: u :: ts)) with (t ++ [44] ++ join [44] (u :: ts)).
    rewrite !length_app. cbn [length]. specialize (IH ltac:(discriminate)). lia.
Qed.

Lemma distinct_middle l1 k l2 :
  distinct (l1 ++ k :: l2) = true ->
  forallb (fun a => negb (jsstring_eqb a k)) l1 = true.
Proof.
  induction l1 as [| a l1 IH]; [reflexivity|]. cbn [app distinct forallb].
  intros H. apply andb_prop in H as [Ha Hd]. rewrite IH by assumption.
  rewrite existsb_app in Ha. cbn [existsb] in Ha.
  destruct (jsstring_eqb a k); [|reflexivity].
  now rewrite orb_true_r in Ha.
Qed.

Lemma set_own_fresh k v acc :
  forallb (fun a => negb (jsstring_eqb a k)) (map fst acc) = true ->
  set_own k v acc = acc ++ [(k, v)].
Proof.
  induction acc as [| [a x] acc IH]; [reflexivity|]. cbn [map fst forallb set_own app].
  intros H. apply andb_prop in H as [Ha Hacc].
  destruct (jsstring_eqb a k); [discriminate|]. now rewrite IH.
Qed.

Lemma parse_members_join ps ms :
  Forall2 reads_member ps ms -> ps <> [] ->
  forall fuel acc rest,
    (members_need ps <= fuel)%nat ->
    distinct (map fst (acc ++ ps)) = true ->
    parse_members fuel (join [44] ms ++ 125 :: rest) acc
    = Some (VObj (acc ++ ps), rest).
Proof.
  induction 1 as [| [k x] m ps ms (t & -> & Hx) Hl IH]; [congruence|].
  intros _ fuel acc rest Hf Hd.
  cbn [members_need fold_right snd] in Hf. fold (members_need ps) in Hf.
  cbn [fst snd] in *.
  destruct fuel as [| fuel]; [lia|]. rewrite parse_members_step.
  assert (Hset : set_own k x acc = acc ++ [(k, x)]).
  { apply set_own_fresh. rewrite map_app in Hd. cbn [map fst] in Hd.
    now apply distinct_middle in Hd. }
  assert (Hhead : forall tail,
    skip_ws ((quote k ++ 58 :: t) ++ tail)
    = quote_mark :: quote_units k ++ quote_mark :: 58 :: t ++ tail).
  { intros tail. unfold quote. cbn [app]. rewrite skip_ws_head by reflexivity.
    now rewrite <- !app_assoc. }
  destruct Hl as [| kv u ps ms Hy Hl].
  - cbn [join]. rewrite Hhead, N.eqb_refl, parse_chars_quote.
    rewrite skip_ws_head by reflexivity. change (58 =? 58) with true. cbv iota.
    rewrite Hx by (try reflexivity; lia).
    rewrite skip_ws_head by reflexivity.
    change (125 =? 44) with false. change (125 =? 125) with true. cbv iota.
    now rewrite Hset.
  - change (join [44] ((quote k ++ 58 :: t) :: u :: ms))
      with ((quote k ++ 58 :: t) ++ [44] ++ join [44] (u :: ms)).
    rewrite <- app_assoc. rewrite Hhead, N.eqb_refl, parse_chars_quote.
    rewrite skip_ws_head by reflexivity. change (58 =? 58) with true. cbv iota.
    rewrite <- app_assoc. cbn [app]. rewrite Hx by (try reflexivity; lia).
    rewrite skip_ws_head by reflexivity.
    change (44 =? 44) with true. cbv iota.
    rewrite Hset, IH; try discriminate; try lia.
    + now rewrite <- app_assoc.
    + now rewrite <- app_assoc.
Qed.

Lemma members_need_length ps ms :
  Forall2 (fun kv m => (need (snd kv) <= length m)%nat) ps ms -> ps <> [] ->
  (members_need ps <= S (length (join [44%N] ms)))%nat.
Proof.
  induction 1 as [| x t l ts Hx Hl IH]; [congruence|]. intros _. cbv beta in Hx.
  cbn [members_need fold_right]. fold (members_need l).
  destruct Hl as [| y u l ts Hy Hl].
  - cbn [members_need fold_right join]. lia.
  - change (join [44] (t :: u :: ts)) with (t ++ [44] ++ join [44] (u :: ts)).
    rewrite !length_app. cbn [length]. specialize (IH ltac:(discriminate)). lia.
Qed.

Lemma elements_read l :
  Forall reads_back l -> forallb plain l = true ->
  Forall2 reads l (map element_text l)
  /\ Forall2 (fun x t => (need x <= length t)%nat) l (map element_text l)
  /\ Forall starts_value (map element_text l).
Proof.
  induction 1 as [| x l Hx _ IH]; cbn [forallb map]; intros Hp.
  - repeat split; constructor.
  - apply andb_prop in Hp as [Hpx Hpl].
    destruct (Hx Hpx) as (t & E & Hn & Hr), (IH Hpl) as (IH1 & IH2 & IH3).
    unfold element_text at 1 3 5. rewrite E.
    repeat split; constructor; auto. now apply serialize_starts with x.
Qed.

Lemma members_read ps :
  Forall (fun kv => reads_back (snd kv)) ps ->
  forallb (fun kv => plain (snd kv)) ps = true ->
  Forall2 reads_member ps (flat_map member_text ps)
  /\ Forall2 (fun kv m => (need (snd kv) <= length m)%nat) ps (flat_map member_text ps).
Proof.
  induction 1 as [| [k x] ps Hx _ IH]; cbn [forallb flat_map]; intros Hp.
  - repeat split; constructor.
  - apply andb_prop in Hp as [Hpx Hpl]. cbn [snd] in *.
    destruct (Hx Hpx) as (t & E & Hn & Hr), (IH Hpl) as (IH1 & IH2).
    unfold member_text at 1 3. cbn [fst snd]. rewrite E. cbn [app].
    repeat split; constructor; auto.
    + now exists t.
    + cbn [snd]. unfold quote. rewrite length_app. cbn [length]. lia.
Qed.

Lemma join_head sep t ts c r :
  t = c :: r -> exists r', join sep (t :: ts) = c :: r'.
Proof.
  intros ->. destruct ts as [| u ts]; cbn [join app]; eauto.
Qed.

Theorem serialize_reads_back v : reads_back v.
Proof.
  induction v as [| | b | x | s | l IH | ps IH] using value_nested_ind;
    unfold reads_back; cbn [plain]; intros Hp.
  - discriminate.
  - exists (lit "null"). repeat split; [cbn; lia|].
    intros [| fuel] rest Hf _; [cbn in Hf; lia|]. reflexivity.
  - destruct b.
    + exists (lit "true"). repeat split; [cbn; lia|].
      intros [| fuel] rest Hf _; [cbn in Hf; lia|]. reflexivity.
    + exists (lit "false"). repeat split; [cbn; lia|].
      intros [| fuel] rest Hf _; [cbn in Hf; lia|]. reflexivity.
  - exists (number_to_string x). repeat split.
    + destruct (serialize_starts (VNum x) _ eq_refl) as (c & r & E & _).
      rewrite E. cbn. lia.
    + intros [| fuel] rest Hf Hr; [cbn in Hf; lia|].
      rewrite parse_value_step.
      assert (Hhead : exists c r, number_to_string x = c :: r
                                  /\ (c = 45 \/ 48 <= c <= 57)).
      { unfold number_to_string. destruct (negative x && negb (mantissa x =? 0)).
        - eexists _, _. split; [reflexivity | now left].
        - destruct (digits_head (mantissa x)) as (d & ds & E & Hd%is_digit_range).
          rewrite E. eexists _, _. split; [reflexivity | now right]. }
      destruct Hhead as (c & r & E & Hc).
      pose proof (parse_number_integer
                    (if negative x then - Z.of_N (mantissa x) else Z.of_N (mantissa x))
                    rest Hr) as Hnum.
      rewrite <- (canonical_of_Z x Hp), E in Hnum. rewrite E. cbn [app] in *.
      rewrite skip_ws_head by (unfold is_ws; cases_N; reflexivity).
      replace (c =? 123) with false by (symmetry; apply N.eqb_neq; lia).
      replace (c =? 91) with false by (symmetry; apply N.eqb_neq; lia).
      replace (c =? quote_mark) with false
        by (symmetry; apply N.eqb_neq; unfold quote_mark; lia).
      replace ((c =? 45) || is_digit c) with true
        by (unfold is_digit; cases_N; reflexivity).
      now rewrite Hnum.
  - exists (quote s). repeat split; [cbn; lia|].
    intros [| fuel] rest Hf _; [cbn in Hf; lia|].
    rewrite parse_value_step. unfold quote. cbn [app].
    rewrite skip_ws_head by reflexivity.
    change (quote_mark =? 123) with false. change (quote_mark =? 91) with false.
    rewrite N.eqb_refl. cbv iota.
    rewrite <- app_assoc. cbn [app]. now rewrite parse_chars_quote.
  - destruct (elements_read l IH Hp) as (Hr & Hn & Hs).
    exists (91 :: join [44] (map element_text l) ++ [93]). split; [reflexivity|].
    destruct l as [| x l].
    + split; [cbn; lia|].
      intros [| fuel] rest Hf _; [cbn in Hf; lia|]. reflexivity.
    + pose proof (elements_need_length _ _ Hn ltac:(discriminate)) as Hlen.
      split.
      * cbn [need]. fold (elements_need (x :: l)).
        cbn [length]. rewrite length_app. cbn [length]. lia.
      * intros [| fuel] rest Hf _; [cbn in Hf; lia|].
        cbn [need] in Hf. fold (elements_need (x :: l)) in Hf.
        rewrite parse_value_step. cbn [app]. rewrite <- app_assoc. cbn [app].
        rewrite skip_ws_head by reflexivity.
        change (91 =? 123) with false. change (91 =? 91) with true. cbv iota.
        cbn [map] in Hs. apply Forall_inv in Hs as (c & r & E & Hw & Hb & _).
        destruct (join_head [44] _ (map element_text l) _ _ E) as (r' & Ej).
        pose proof (parse_elements_join _ _ Hr ltac:(discriminate) fuel [] rest) as Hpe.
        cbn [map] in *. rewrite Ej in *. cbn [app] in *.
        rewrite skip_ws_head by assumption. rewrite Hb.
        apply Hpe. lia.
  - apply andb_prop in Hp as [Hp Hd].
    destruct (members_read ps IH Hp) as (Hr & Hn).
    exists (123 :: join [44] (flat_map member_text ps) ++ [125]). split; [reflexivity|].
    destruct ps as [| [k x] ps].
    + split; [cbn; lia|].
      intros [| fuel] rest Hf _; [cbn in Hf; lia|]. reflexivity.
    + pose proof (members_need_length _ _ Hn ltac:(discriminate)) as Hlen.
      split.
      * cbn [need]. fold (members_need ((k, x) :: ps)).
        cbn [length]. rewrite length_app. cbn [length]. lia.
      * intros [| fuel] rest Hf _; [cbn in Hf; lia|].
        cbn [need] in Hf. fold (members_need ((k, x) :: ps)) in Hf.
        rewrite parse_value_step. cbn [app]. rewrite <- app_assoc. cbn [app].
        rewrite skip_ws_head by reflexivity.
        change (123 =? 123) with true. cbv iota.
        pose proof (parse_members_join _ _ Hr ltac:(discriminate) fuel [] rest) as Hpm.
        change (flat_map member_text ((k, x) :: ps))
          with (member_text (k, x) ++ flat_map member_text ps) in *.
        inversion Hr as [| kv m ps' ms (t & Em & _) _ E1 E2]. subst m.
        rewrite <- E2 in *. cbn [fst] in *.
        destruct (join_head [44] (quote k ++ 58 :: t) ms quote_mark
                    (quote_units k ++ quote_mark :: 58 :: t)) as (r' & Ej).
        { unfold quote. cbn [app]. now rewrite <- app_assoc. }
        rewrite Ej in *. cbn [app] in *.
        rewrite skip_ws_head by reflexivity.
        change (quote_mark =? 125) with false. cbv iota.
        apply Hpm; [lia | exact Hd].
Qed.

(** [JSON.parse] gives back every plain value that [JSON.stringify]
    wrote. *)
Theorem parse_stringify v text :
  plain v = true -> stringify v = Some text -> parse text = Ok v.
Proof.
  intros Hp Hs. destruct (serialize_reads_back v Hp) as (t & E & Hn & Hr).
  unfold stringify in Hs. rewrite E in Hs. injection Hs as <-.
  unfold parse. pose proof (Hr (S (length t)) [] ltac:(lia) eq_refl) as H.
  rewrite app_nil_r in H. now rewrite H.
Qed.

End RoundTrip.

(** ** The token codec *)

Module Codec.
Import JSON JSONSpec Base64Facts RoundTrip.

Lemma jsstring_eqb_refl a : jsstring_eqb a a = true.
Proof. induction a as [| x a IH]; [reflexivity|]. cbn. now rewrite N.eqb_refl. Qed.

Lemma jsstring_eqb_eq a b : jsstring_eqb a b = true <-> a = b.
Proof.
  split; [|intros ->; apply jsstring_eqb_refl].
  revert b. induction a as [| x a IH]; intros [| y b]; cbn; try discriminate; auto.
  intros H. apply andb_prop in H as [->%N.eqb_eq H]. f_equal. now apply IH.
Qed.

Lemma canonical_number_of_Z z : canonical (number_of_Z z) = true.
Proof.
  unfold canonical, number_of_Z. cbn [negative mantissa exponent10 Z.eqb andb].
  destruct (Z.ltb_spec z 0); cbn [andb negb]; [|reflexivity].
  apply negb_true_iff, N.eqb_neq. lia.
Qed.

Lemma plain_payload u z :
  plain (payload_value u z) = true.
Proof.
  unfold payload_value, User_value. cbn [plain forallb snd map fst].
  rewrite canonical_number_of_Z. reflexivity.
Qed.

Lemma stringify_payload u z :
  exists text, stringify (payload_value u z) = Some text
               /\ parse text = Ok (payload_value u z).
Proof.
  destruct (serialize_reads_back _ (plain_payload u z)) as (text & E & _).
  exists text. split; [exact E|].
  apply parse_stringify; [apply plain_payload | exact E].
Qed.

(** Decoding recovers the user from every token that [generateMockToken]
    returns. *)
Theorem payload_user_generateMockToken now u token :
  generateMockToken now u = Ok token -> payload_user token = Ok (User_value u).
Proof.
  unfold generateMockToken. fold (payload_value u (now + 3600000)).
  destruct (btoa (DOMString (stringify header_value))) as [h|] eqn:Eh;
    [|discriminate]. cbn [bind].
  destruct (stringify_payload u (now + 3600000)) as (text & Es & Ep).
  rewrite Es. cbn [DOMString].
  destruct (btoa text) as [p|] eqn:Eb; [|discriminate]. cbn [bind].
  intros [= <-]. unfold payload_user.
  rewrite split_second by eauto using btoa_no_dot. cbn [DOMString].
  rewrite (btoa_atob _ _ Eb). cbn [bind]. rewrite Ep. cbn [bind].
  reflexivity.
Qed.

Lemma is_latin1_app a b : is_latin1 (a ++ b) = is_latin1 a && is_latin1 b.
Proof. apply forallb_app. Qed.

Lemma is_latin1_cons c a : is_latin1 (c :: a) = (c <=? 255) && is_latin1 a.
Proof. reflexivity. Qed.

Lemma is_latin1_digits n : is_latin1 (digits n) = true.
Proof.
  destruct (NumberFacts.digits_head n) as (d & ds & _).
  assert (H : forall l, forallb is_digit l = true -> is_latin1 l = true).
  { induction l as [| c l IH]; [reflexivity|]. cbn [forallb].
    intros H. apply andb_prop in H as [Hc%NumberFacts.is_digit_range Hl].
    rewrite is_latin1_cons, IH by assumption. replace (c <=? 255) with true; [reflexivity|].
    symmetry. apply N.leb_le. lia. }
  apply H. destruct (N.eq_dec n 0) as [->|Hn]; [reflexivity|].
  destruct (NumberFacts.digits_positive n) as (d' & ds' & E & Hd & _ & Hds & _); [lia|].
  rewrite E. cbn [forallb]. now rewrite Hd, Hds.
Qed.

Lemma is_latin1_integer z : is_latin1 (number_to_string (number_of_Z z)) = true.
Proof.
  unfold number_to_string, number_of_Z. cbn [negative mantissa exponent10].
  change (0 =? 0)%Z with true. cbv iota.
  rewrite !is_latin1_app, is_latin1_digits.
  now destruct ((z <? 0)%Z && negb (Z.abs_N z =? 0)).
Qed.

Lemma is_latin1_quote s : is_latin1 (quote s) = encodable s.
Proof.
  unfold quote, encodable. rewrite is_latin1_cons, is_latin1_app.
  cbn. now rewrite andb_true_r.
Qed.

Lemma encodable_membership m : encodable (MembershipType_string m) = true.
Proof. now destruct m. Qed.

(** The text of the payload is Latin-1 exactly when the strings of the
    user are encodable. *)
Lemma is_latin1_payload u z text :
  stringify (payload_value u z) = Some text -> is_latin1 text = User_encodable u.
Proof.
  unfold stringify, payload_value, User_value.
  cbn [serialize flat_map snd fst app join]. intros [= <-].
  repeat (rewrite ?is_latin1_cons, ?is_latin1_app).
  repeat match goal with
    | |- context [is_latin1 (quote_units ?s)] =>
        change (is_latin1 (quote_units s)) with (encodable s)
    end.
  rewrite ?is_latin1_quote, encodable_membership, is_latin1_integer.
  unfold User_encodable. cbn.
  destruct (encodable (id u)), (encodable (email u)), (encodable (name u)),
    (encodable (memberSince u)); reflexivity.
Qed.

(** [generateMockToken] returns a token for an encodable user and throws
    for any other. *)
Theorem generateMockToken_outcome now u :
  if User_encodable u
  then exists token, generateMockToken now u = Ok token
  else generateMockToken now u = Throw InvalidCharacterError.
Proof.
  unfold generateMockToken.
  destruct (stringify_payload u (now + 3600000)) as (text & Es & _).
  rewrite Es. cbn [DOMString].
  change (btoa (DOMString (stringify header_value)))
    with (Ok (Base64.encode (DOMString (stringify header_value)))).
  cbn [bind]. unfold btoa. rewrite (is_latin1_payload _ _ _ Es).
  destruct (User_encodable u); cbn [bind]; eauto.
Qed.

Lemma hex_char_latin1 d : d < 16 -> (hex_char d <=? 255) = true.
Proof. intros H. unfold hex_char. destruct (d <? 10); apply N.leb_le; lia. Qed.

Lemma is_latin1_unicode_escape c : c < 65536 -> is_latin1 (unicode_escape c) = true.
Proof.
  intros H. unfold unicode_escape. rewrite !is_latin1_cons.
  rewrite !hex_char_latin1 by (zify; div_lia). reflexivity.
Qed.

Lemma encodable_latin1 s : is_latin1 s = true -> encodable s = true.
Proof.
  unfold encodable, is_latin1.
  induction s as [| c s IH]; [reflexivity|]. cbn [forallb].
  intros H. apply andb_prop in H as [Hc%N.leb_le Hs]. cbn [quote_units].
  replace (is_high_surrogate c) with false
    by (unfold is_high_surrogate; cases_N; reflexivity).
  replace (is_low_surrogate c) with false
    by (unfold is_low_surrogate; cases_N; reflexivity).
  rewrite forallb_app, IH by assumption. rewrite andb_true_r.
  unfold quote_unit.
  repeat match goal with
    | |- context [N.eqb ?a ?b] => destruct (N.eqb_spec a b); [reflexivity|]
    end.
  destruct (N.ltb_spec c 32); [apply is_latin1_unicode_escape; lia|].
  cbn [forallb]. rewrite andb_true_r. apply N.leb_le. lia.
Qed.

End Codec.

(** ** What [JSON.parse] never returns *)

Module ParseFacts.
Import JSON RoundTrip.

Lemma parse_value_defined fuel :
  (forall s, defined (parse_value fuel s))
  /\ (forall s acc, defined (parse_elements fuel s acc))
  /\ (forall s acc, defined (parse_members fuel s acc)).
Proof.
  induction fuel as [| fuel (IHv & IHe & IHm)]; [repeat split; intros; exact I|].
  repeat split.
  - intros s. rewrite parse_value_step.
    destruct (skip_ws s) as [| c r]; [exact I|].
    destruct (c =? 123).
    { destruct (skip_ws r) as [| d r']; [exact I|].
      destruct (d =? 125); [discriminate | apply IHm]. }
    destruct (c =? 91).
    { destruct (skip_ws r) as [| d r']; [exact I|].
      destruct (d =? 93); [discriminate | apply IHe]. }
    destruct (c =? quote_mark).
    { destruct (parse_chars r) as [[str rest]|]; [discriminate | exact I]. }
    destruct ((c =? 45) || is_digit c).
    { destruct (parse_number (c :: r)) as [[x rest]|]; [discriminate | exact I]. }
    destruct (strip_prefix (lit "null") (c :: r)); [discriminate|].
    destruct (strip_prefix (lit "true") (c :: r)); [discriminate|].
    destruct (strip_prefix (lit "false") (c :: r)); [discriminate | exact I].
  - intros s acc. rewrite parse_elements_step.
    destruct (parse_value fuel s) as [[v r]|]; [|exact I].
    destruct (skip_ws r) as [| c r']; [exact I|].
    destruct (c =? 44); [apply IHe|].
    destruct (c =? 93); [discriminate | exact I].
  - intros s acc. rewrite parse_members_step.
    destruct (skip_ws s) as [| q r0]; [exact I|].
    destruct (q =? quote_mark); [|exact I].
    destruct (parse_chars r0) as [[key r1]|]; [|exact I].
    destruct (skip_ws r1) as [| colon r2]; [exact I|].
    destruct (colon =? 58); [|exact I].
    destruct (parse_value fuel r2) as [[v r3]|]; [|exact I].
    destruct (skip_ws r3) as [| c r4]; [exact I|].
    destruct (c =? 44); [apply IHm|].
    destruct (c =? 125); [discriminate | exact I].
Qed.

(** [JSON.parse] returns [null], a boolean, a number, a string, an array
    or an object. *)
Lemma parse_defined text v : parse text = Ok v -> v <> VUndefined.
Proof.
  unfold parse. pose proof (proj1 (parse_value_defined (S (length text))) text) as H.
  destruct (parse_value (S (length text)) text) as [[x rest]|]; [|discriminate].
  destruct (skip_ws rest); [|discriminate]. now intros [= <-].
Qed.

End ParseFacts.

(** ** The fuel of [parse_value] is no limit *)

Module Fuel.
Import JSON RoundTrip.

Lemma skip_ws_length s : (length (skip_ws s) <= length s)%nat.
Proof.
  induction s as [| c s IH]; [reflexivity|]. cbn [skip_ws].
  destruct (is_ws c); cbn [length]; lia.
Qed.

Lemma skip_ws_cons s c r : skip_ws s = c :: r -> (length r < length s)%nat.
Proof. intros H. pose proof (skip_ws_length s) as L. rewrite H in L. cbn in L. lia. Qed.

Lemma cons_fst_length {A} (a : A) res l (r s : list N) :
  (forall l' r', res = Some (l', r') -> (length r' < length s)%nat) ->
  cons_fst a res = Some (l, r) -> (length r < length s)%nat.
Proof.
  intros H. destruct res as [[l' r']|]; [|discriminate].
  intros [= <- <-]. now apply (H l').
Qed.

Lemma parse_chars_length s : forall str r,
  parse_chars s = Some (str, r) -> (length r < length s)%nat.
Proof.
  induction s as [s IH] using (well_founded_induction
                                 (Wf_nat.well_founded_ltof _ (@length N))).
  unfold Wf_nat.ltof in IH. intros str r.
  destruct s as [| c s]; [discriminate|]. cbn [parse_chars].
  destruct (c =? quote_mark).
  { intros [= <- <-]. cbn. lia. }
  destruct (c =? backslash).
  { destruct s as [| e s]; [discriminate|].
    destruct (e =? 117).
    - destruct s as [| h1 [| h2 [| h3 [| h4 s]]]]; try discriminate.
      destruct (hex4 h1 h2 h3 h4); [|discriminate].
      apply cons_fst_length. intros l' r' E.
      apply IH in E; cbn [length] in *; lia.
    - destruct (unescape e); [|discriminate].
      apply cons_fst_length. intros l' r' E.
      apply IH in E; cbn [length] in *; lia. }
  destruct (c <? 32); [discriminate|].
  apply cons_fst_length. intros l' r' E.
  apply IH in E; cbn [length] in *; lia.
Qed.

Lemma take_digits_length s ds r :
  take_digits s = (ds, r) -> (length r <= length s)%nat.
Proof.
  revert ds r. induction s as [| c s IH]; intros ds r; cbn [take_digits].
  - intros [= <- <-]. reflexivity.
  - destruct (is_digit c).
    + destruct (take_digits s) as [ds' r'] eqn:E. intros [= <- <-].
      specialize (IH _ _ eq_refl). cbn [length]. lia.
    + intros [= <- <-]. reflexivity.
Qed.

Lemma parse_int_length s ip r :
  parse_int s = Some (ip, r) -> (length r < length s)%nat.
Proof.
  destruct s as [| c s]; [discriminate|]. cbn [parse_int].
  destruct (c =? 48); [intros [= <- <-]; cbn; lia|].
  destruct (is_digit c); [|discriminate].
  destruct (take_digits s) as [ds r'] eqn:E. intros [= <- <-].
  apply take_digits_length in E. cbn [length]. lia.
Qed.

Lemma parse_frac_length s fp r :
  parse_frac s = Some (fp, r) -> (length r <= length s)%nat.
Proof.
  destruct s as [| c s]; [intros [= <- <-]; reflexivity|]. cbn [parse_frac].
  destruct (c =? 46); [|intros [= <- <-]; reflexivity].
  destruct (take_digits s) as [[| d ds] r'] eqn:E; [discriminate|].
  intros [= <- <-]. apply take_digits_length in E. cbn [length]. lia.
Qed.

Lemma parse_exp_length s e r :
  parse_exp s = Some (e, r) -> (length r <= length s)%nat.
Proof.
  destruct s as [| c s]; [intros [= <- <-]; reflexivity|]. cbn [parse_exp].
  destruct ((c =? 101) || (c =? 69)); [|intros [= <- <-]; reflexivity].
  destruct s as [| sg s']; [discriminate|].
  destruct (sg =? 45); [|destruct (sg =? 43)]; cbv beta iota zeta; intros Hp.
  - enough (length r <= length s')%nat by (cbn [length]; lia).
    revert Hp. destruct (take_digits s') as [[| d ds] rest] eqn:E; [discriminate|].
    intros [= <- <-]. now apply take_digits_length in E.
  - enough (length r <= length s')%nat by (cbn [length]; lia).
    revert Hp. destruct (take_digits s') as [[| d ds] rest] eqn:E; [discriminate|].
    intros [= <- <-]. now apply take_digits_length in E.
  - enough (length r <= length (sg :: s'))%nat by (cbn [length] in *; lia).
    revert Hp. destruct (take_digits (sg :: s')) as [[| d ds] rest] eqn:E; [discriminate|].
    intros [= <- <-]. now apply take_digits_length in E.
Qed.

Lemma parse_number_length s x r :
  parse_number s = Some (x, r) -> (length r < length s)%nat.
Proof.
  assert (H : forall neg s1,
    match parse_int s1 with
    | None => None
    | Some (ip, s2) =>
        match parse_frac s2 with
        | None => None
        | Some (fp, s3) =>
            match parse_exp s3 with
            | None => None
            | Some (e, s4) =>
                Some ({| negative := neg; mantissa := N_of_digits (ip ++ fp);
                         exponent10 := (e - Z.of_nat (length fp))%Z |}, s4)
            end
        end
    end = Some (x, r) -> (length r < length s1)%nat).
  { intros neg s1.
    destruct (parse_int s1) as [[ip s2]|] eqn:Ei; [|discriminate].
    destruct (parse_frac s2) as [[fp s3]|] eqn:Ef; [|discriminate].
    destruct (parse_exp s3) as [[e s4]|] eqn:Ee; [|discriminate].
    intros [= <- <-]. apply parse_int_length in Ei. apply parse_frac_length in Ef.
    apply parse_exp_length in Ee. lia. }
  unfold parse_number. destruct s as [| c s']; [intros Hp; now apply H in Hp|].
  destruct (c =? 45); intros Hp; apply H in Hp; cbn [length] in *; lia.
Qed.

Lemma strip_prefix_length p : forall s r,
  strip_prefix p s = Some r -> (length r + length p = length s)%nat.
Proof.
  induction p as [| a p IH]; intros s r; cbn [strip_prefix].
  - intros [= <-]. cbn. lia.
  - destruct s as [| b s]; [discriminate|].
    destruct (a =? b); [|discriminate]. intros H%IH. cbn [length]. lia.
Qed.

(** What succeeds within some fuel reads at least one character, and
    succeeds within any fuel that is at least the number of characters
    read. *)
Lemma parse_value_settles fuel :
  (forall s v r,
     parse_value fuel s = Some (v, r) ->
     (length r < length s)%nat
     /\ forall fuel', (length s - length r <= fuel')%nat ->
                      parse_value fuel' s = Some (v, r))
  /\ (forall s acc v r,
        parse_elements fuel s acc = Some (v, r) ->
        (length r < length s)%nat
        /\ forall fuel', (length s - length r <= fuel')%nat ->
                         parse_elements fuel' s acc = Some (v, r))
  /\ (forall s acc v r,
        parse_members fuel s acc = Some (v, r) ->
        (length r < length s)%nat
        /\ forall fuel', (length s - length r <= fuel')%nat ->
                         parse_members fuel' s acc = Some (v, r)).
Proof.
  induction fuel as [| fuel (IHv & IHe & IHm)]; [repeat split; discriminate|].
  split; [|split].
  - intros s v r. rewrite parse_value_step.
    destruct (skip_ws s) as [| c r0] eqn:Es; [discriminate|].
    pose proof (skip_ws_cons _ _ _ Es) as L0.
    assert (Hfree : forall res,
      (forall v' r', res = Some (v', r') -> (length r' < length (c :: r0))%nat) ->
      (forall fuel', parse_value (S fuel') s = res) ->
      res = Some (v, r) ->
      (length r < length s)%nat
      /\ forall fuel', (length s - length r <= fuel')%nat ->
                       parse_value fuel' s = Some (v, r)).
    { intros res Hlen Hsame E. specialize (Hlen _ _ E). cbn [length] in Hlen.
      split; [lia|]. intros [| fuel'] Hf; [lia|]. now rewrite Hsame. }
    destruct (c =? 123) eqn:E1.
    { destruct (skip_ws r0) as [| d r'] eqn:Er; [discriminate|].
      pose proof (skip_ws_cons _ _ _ Er) as L1.
      destruct (d =? 125) eqn:E2.
      - intros [= <- <-]. split; [lia|]. intros [| fuel'] Hf; [lia|].
        now rewrite parse_value_step, Es, E1, Er, E2.
      - intros H. apply IHm in H as [Hl Hf]. cbn [length] in *. split; [lia|].
        intros [| fuel'] Hf'; [lia|].
        rewrite parse_value_step, Es, E1, Er, E2. apply Hf. lia. }
    destruct (c =? 91) eqn:E2.
    { destruct (skip_ws r0) as [| d r'] eqn:Er; [discriminate|].
      pose proof (skip_ws_cons _ _ _ Er) as L1.
      destruct (d =? 93) eqn:E3.
      - intros [= <- <-]. split; [lia|]. intros [| fuel'] Hf; [lia|].
        now rewrite parse_value_step, Es, E1, E2, Er, E3.
      - intros H. apply IHe in H as [Hl Hf]. cbn [length] in *. split; [lia|].
        intros [| fuel'] Hf'; [lia|].
        rewrite parse_value_step, Es, E1, E2, Er, E3. apply Hf. lia. }
    destruct (c =? quote_mark) eqn:E3.
    { apply Hfree.
      - intros v' r'. destruct (parse_chars r0) as [[str rest]|] eqn:Ec; [|discriminate].
        intros [= <- <-]. apply parse_chars_length in Ec. cbn [length]. lia.
      - intros fuel'. now rewrite parse_value_step, Es, E1, E2, E3. }
    destruct ((c =? 45) || is_digit c) eqn:E4.
    { apply Hfree.
      - intros v' r'. destruct (parse_number (c :: r0)) as [[x rest]|] eqn:En;
          [|discriminate].
        intros [= <- <-]. now apply parse_number_length in En.
      - intros fuel'. now rewrite parse_value_step, Es, E1, E2, E3, E4. }
    apply Hfree.
    + intros v' r'.
      destruct (strip_prefix (lit "null") (c :: r0)) eqn:S1;
        [intros [= <- <-]; apply strip_prefix_length in S1; cbn in *; lia|].
      destruct (strip_prefix (lit "true") (c :: r0)) eqn:S2;
        [intros [= <- <-]; apply strip_prefix_length in S2; cbn in *; lia|].
      destruct (strip_prefix (lit "false") (c :: r0)) eqn:S3;
        [intros [= <- <-]; apply strip_prefix_length in S3; cbn in *; lia|].
      discriminate.
    + intros fuel'. now rewrite parse_value_step, Es, E1, E2, E3, E4.
  - intros s acc v r. rewrite parse_elements_step.
    destruct (parse_value fuel s) as [[x r1]|] eqn:Ev; [|discriminate].
    apply IHv in Ev as [L1 Hv].
    destruct (skip_ws r1) as [| c r2] eqn:Es; [discriminate|].
    pose proof (skip_ws_cons _ _ _ Es) as L2.
    destruct (c =? 44) eqn:E1.
    + intros H. apply IHe in H as [L3 He]. split; [lia|].
      intros [| fuel'] Hf; [lia|].
      rewrite parse_elements_step, Hv, Es, E1 by lia. apply He. lia.
    + destruct (c =? 93) eqn:E2; [|discriminate].
      intros [= <- <-]. split; [lia|].
      intros [| fuel'] Hf; [lia|].
      rewrite parse_elements_step, Hv, Es, E1, E2 by lia. reflexivity.
  - intros s acc v r. rewrite parse_members_step.
    destruct (skip_ws s) as [| q r0] eqn:Es; [discriminate|].
    pose proof (skip_ws_cons _ _ _ Es) as L0.
    destruct (q =? quote_mark) eqn:E0; [|discriminate].
    destruct (parse_chars r0) as [[key r1]|] eqn:Ec; [|discriminate].
    pose proof (parse_chars_length _ _ _ Ec) as L1.
    destruct (skip_ws r1) as [| colon r2] eqn:Es1; [discriminate|].
    pose proof (skip_ws_cons _ _ _ Es1) as L2.
    destruct (colon =? 58) eqn:E1; [|discriminate].
    destruct (parse_value fuel r2) as [[x r3]|] eqn:Ev; [|discriminate].
    apply IHv in Ev as [L3 Hv].
    destruct (skip_ws r3) as [| c r4] eqn:Es3; [discriminate|].
    pose proof (skip_ws_cons _ _ _ Es3) as L4.
    destruct (c =? 44) eqn:E2.
    + intros H. apply IHm in H as [L5 Hm]. split; [lia|].
      intros [| fuel'] Hf; [lia|].
      rewrite parse_members_step, Es, E0, Ec, Es1, E1, Hv, Es3, E2 by lia.
      apply Hm. lia.
    + destruct (c =? 125) eqn:E3; [|discriminate].
      intros [= <- <-]. split; [lia|].
      intros [| fuel'] Hf; [lia|].
      rewrite parse_members_step, Es, E0, Ec, Es1, E1, Hv, Es3, E2, E3 by lia.
      reflexivity.
Qed.

(** [JSON.parse] accepts a text exactly when [parse_value] reads it, all
    of it, within some fuel: the fuel that [parse] gives is always enough. *)
Theorem parse_any_fuel text v :
  parse text = Ok v
  <-> exists fuel rest, parse_value fuel text = Some (v, rest) /\ skip_ws rest = [].
Proof.
  unfold parse. split.
  - destruct (parse_value (S (length text)) text) as [[x rest]|] eqn:E; [|discriminate].
    destruct (skip_ws rest) eqn:Er; [|discriminate].
    intros [= <-]. now exists (S (length text)), rest.
  - intros (fuel & rest & E & Er).
    apply (proj1 (parse_value_settles fuel)) in E as [L H].
    rewrite (H (S (length text))) by lia. now rewrite Er.
Qed.

End Fuel.

(** ** The delay *)

Module Delay.
Import Binary64 Binary64Spec.
Open Scope Z_scope.

Lemma pow2_pos k : 0 <= k -> 0 < 2 ^ k.
Proof. intros H. now apply Z.pow_pos_nonneg. Qed.

Lemma pow2_split a b : 0 <= a -> 0 <= b -> 2 ^ (a + b) = 2 ^ a * 2 ^ b.
Proof. intros Ha Hb. now apply Z.pow_add_r. Qed.

Lemma pow2_le a b : 0 <= a <= b -> 2 ^ a <= 2 ^ b.
Proof. intros H. apply Z.pow_le_mono_r; lia. Qed.

(** *** The binary64 nearest to an integer *)

Lemma nearest_small z : 0 <= z < 2 ^ 53 -> nearest z = z.
Proof.
  intros Hz. unfold nearest, round.
  destruct (Z.ltb_spec z 0) as [?|_]; [lia|]. unfold round_magnitude.
  assert (Hb : Z.log2 z + 1 <= 53).
  { destruct (Z.eq_dec z 0) as [->|Hn]; [cbn; lia|].
    assert (Z.log2 z < 53) by (apply Z.log2_lt_pow2; lia). lia. }
  destruct (Z.leb_spec (Z.log2 z + 1) 53) as [_|?]; [|lia].
  unfold floor. cbn [num scale]. apply Z.shiftr_0_r.
Qed.

(** An integer of at least 54 bits, by its 53 leading bits [q] and the
    rest [rem]. *)
Lemma nearest_binade sh q rem :
  1 <= sh -> 2 ^ 52 <= q < 2 ^ 53 -> 0 <= rem < 2 ^ sh ->
  nearest (q * 2 ^ sh + rem)
  = (if rounds_up sh q rem then q + 1 else q) * 2 ^ sh.
Proof.
  intros Hsh Hq Hrem. pose proof (pow2_pos sh ltac:(lia)) as Hp.
  set (z := q * 2 ^ sh + rem).
  assert (Hz : 0 < z) by (unfold z; nia).
  assert (Hlog : Z.log2 z = sh + 52).
  { apply Z.log2_unique; [lia|]. rewrite Z.pow_succ_r by lia.
    rewrite pow2_split by lia. unfold z. nia. }
  unfold nearest, round. destruct (Z.ltb_spec z 0) as [?|_]; [lia|].
  unfold round_magnitude. rewrite Hlog.
  destruct (Z.leb_spec (sh + 52 + 1) 53) as [?|_]; [lia|].
  replace (sh + 52 + 1 - 53) with sh by lia.
  assert (Hdiv : z / 2 ^ sh = q) by (symmetry; apply (Z.div_unique_pos z _ q rem); unfold z; lia).
  assert (Hmod : z mod 2 ^ sh = rem) by (symmetry; apply (Z.mod_unique_pos z _ q rem); unfold z; lia).
  rewrite Hdiv, Hmod. fold (rounds_up sh q rem).
  unfold floor. cbn [num scale]. rewrite Z.shiftr_mul_pow2 by lia.
  f_equal. f_equal. lia.
Qed.

Lemma binade z :
  2 ^ 53 <= z ->
  exists sh q rem,
    1 <= sh /\ 2 ^ 52 <= q < 2 ^ 53 /\ 0 <= rem < 2 ^ sh /\ z = q * 2 ^ sh + rem.
Proof.
  intros Hz. assert (Hpos : 0 < z) by (pose proof (pow2_pos 53); lia).
  pose proof (Z.log2_spec z Hpos) as [Hlo Hhi].
  assert (Hl : 53 <= Z.log2 z) by (apply Z.log2_le_pow2; lia).
  set (sh := Z.log2 z - 52). pose proof (pow2_pos sh ltac:(lia)) as Hp.
  exists sh, (z / 2 ^ sh), (z mod 2 ^ sh).
  pose proof (Z.div_mod z (2 ^ sh) ltac:(lia)) as Hdm.
  pose proof (Z.mod_pos_bound z (2 ^ sh) Hp) as Hm.
  assert (E1 : 2 ^ Z.log2 z = 2 ^ 52 * 2 ^ sh)
    by (rewrite <- pow2_split by lia; f_equal; lia).
  assert (E2 : 2 ^ Z.succ (Z.log2 z) = 2 ^ 53 * 2 ^ sh)
    by (rewrite <- pow2_split by lia; f_equal; lia).
  repeat split; try lia.
  - apply Z.div_le_lower_bound; lia.
  - apply Z.div_lt_upper_bound; lia.
Qed.

Lemma nearest_binade_bounds sh q rem :
  1 <= sh -> 2 ^ 52 <= q < 2 ^ 53 -> 0 <= rem < 2 ^ sh ->
  q * 2 ^ sh <= nearest (q * 2 ^ sh + rem) <= (q + 1) * 2 ^ sh.
Proof.
  intros Hsh Hq Hrem. rewrite nearest_binade by assumption.
  pose proof (pow2_pos sh ltac:(lia)). destruct (rounds_up sh q rem); nia.
Qed.

Lemma pow2_double a b : 0 <= a < b -> 2 * 2 ^ a <= 2 ^ b.
Proof.
  intros H. replace b with (a + (b - a)) by lia. rewrite pow2_split by lia.
  pose proof (pow2_pos a ltac:(lia)). pose proof (pow2_le 1 (b - a) ltac:(lia)).
  change (2 ^ 1) with 2 in *. nia.
Qed.

(** Rounding keeps the order. *)
Lemma nearest_mono a b : 0 <= a <= b -> nearest a <= nearest b.
Proof.
  intros Hab. pose proof (pow2_pos 53 ltac:(lia)) as H53.
  destruct (Z.lt_ge_cases b (2 ^ 53)) as [Hb|Hb].
  { rewrite !nearest_small by lia. lia. }
  destruct (binade b Hb) as (sb & qb & rb & Hsb & Hqb & Hrb & ->).
  pose proof (nearest_binade_bounds sb qb rb Hsb Hqb Hrb) as Bb.
  pose proof (pow2_pos sb ltac:(lia)) as HB.
  pose proof (pow2_double 0 sb ltac:(lia)) as HB2. change (2 ^ 0) with 1 in HB2.
  assert (E53 : 2 ^ 53 = 2 * 2 ^ 52) by reflexivity.
  destruct (Z.lt_ge_cases a (2 ^ 53)) as [Ha|Ha].
  { rewrite (nearest_small a) by lia. nia. }
  destruct (binade a Ha) as (sa & qa & ra & Hsa & Hqa & Hra & ->).
  pose proof (nearest_binade_bounds sa qa ra Hsa Hqa Hra) as Ba.
  pose proof (pow2_pos sa ltac:(lia)) as HA.
  destruct (Z.lt_trichotomy sa sb) as [Hlt|[Heq|Hgt]].
  - pose proof (pow2_double sa sb ltac:(lia)). nia.
  - subst sb. destruct (Z.lt_trichotomy qa qb) as [Hq|[Hq|Hq]].
    + nia.
    + subst qb. rewrite !nearest_binade by assumption.
      assert (Hr : ra <= rb) by nia.
      assert (Hup : rounds_up sa qa ra = true -> rounds_up sa qa rb = true).
      { unfold rounds_up. intros H. apply orb_prop in H as [H%Z.ltb_lt|H].
        - apply orb_true_intro. left. apply Z.ltb_lt. lia.
        - apply andb_prop in H as [H%Z.eqb_eq Ho]. rewrite Ho, andb_true_r.
          destruct (Z.eqb_spec rb (2 ^ (sa - 1))); [apply orb_true_r|].
          apply orb_true_intro. left. apply Z.ltb_lt. lia. }
      destruct (rounds_up sa qa ra), (rounds_up sa qa rb);
        try (specialize (Hup eq_refl); discriminate Hup); nia.
    + exfalso. nia.
  - exfalso. pose proof (pow2_double sb sa ltac:(lia)). nia.
Qed.

(** A significand of at most 53 bits times a power of two is a
    binary64. *)
Lemma nearest_exact q t :
  0 <= q <= 2 ^ 53 -> 0 <= t -> nearest (q * 2 ^ t) = q * 2 ^ t.
Proof.
  intros Hq Ht. pose proof (pow2_pos t Ht) as HT.
  pose proof (pow2_pos 53 ltac:(lia)) as H53.
  destruct (Z.lt_ge_cases (q * 2 ^ t) (2 ^ 53)) as [Hs|Hs].
  { apply nearest_small. nia. }
  assert (Hqpos : 0 < q) by nia.
  destruct (binade _ Hs) as (sh & q0 & rem & Hsh & Hq0 & Hrem & E).
  pose proof (pow2_pos sh ltac:(lia)) as HS.
  (* the power of two of the binade divides the number *)
  assert (Hdiv : rem = 0).
  { destruct (Z.le_gt_cases sh t) as [Hle|Hgt].
    - assert (Et : 2 ^ t = 2 ^ (t - sh) * 2 ^ sh)
        by (rewrite <- pow2_split by lia; f_equal; lia).
      assert (Hm : (q * 2 ^ t) mod 2 ^ sh = 0).
      { rewrite Et, Z.mul_assoc. apply Z.mod_mul. lia. }
      rewrite E in Hm. rewrite Z.add_comm, Z.mod_add in Hm by lia.
      rewrite Z.mod_small in Hm by lia. exact Hm.
    - (* then [q] is 2^53 and [sh] is [t + 1] *)
      assert (Es : 2 ^ sh = 2 ^ (sh - t) * 2 ^ t)
        by (rewrite <- pow2_split by lia; f_equal; lia).
      pose proof (pow2_double 0 (sh - t) ltac:(lia)) as Hd.
      change (2 ^ 0) with 1 in Hd.
      assert (E53 : 2 ^ 53 = 2 * 2 ^ 52) by reflexivity.
      assert (Hq53 : q = 2 ^ 53) by nia.
      assert (Hst : 2 ^ (sh - t) = 2) by nia.
      nia. }
  subst rem. rewrite E, nearest_binade by lia.
  unfold rounds_up. pose proof (pow2_pos (sh - 1) ltac:(lia)) as Hh.
  destruct (Z.ltb_spec (2 ^ (sh - 1)) 0) as [?|_]; [lia|].
  destruct (Z.eqb_spec 0 (2 ^ (sh - 1))) as [?|_]; [lia|]. cbn [orb andb]. lia.
Qed.

Lemma nearest_upto z : 0 <= z <= 2 ^ 53 -> nearest z = z.
Proof.
  intros Hz. pose proof (nearest_exact z 0 Hz ltac:(lia)) as H.
  now rewrite Z.pow_0_r, Z.mul_1_r in H.
Qed.

Lemma nearest_nonneg z : 0 <= z -> 0 <= nearest z.
Proof.
  intros Hz. pose proof (nearest_mono 0 z ltac:(lia)) as H.
  rewrite (nearest_small 0) in H by (pose proof (pow2_pos 53); lia). exact H.
Qed.

(** The binary64 nearest to an integer is a binary64. *)
Lemma nearest_idempotent z : 0 <= z -> nearest (nearest z) = nearest z.
Proof.
  intros Hz. pose proof (pow2_pos 53 ltac:(lia)) as H53.
  destruct (Z.lt_ge_cases z (2 ^ 53)) as [Hs|Hs].
  { rewrite (nearest_small z) by lia. apply nearest_small. lia. }
  destruct (binade z Hs) as (sh & q & rem & Hsh & Hq & Hrem & ->).
  rewrite nearest_binade by assumption.
  apply nearest_exact; [destruct (rounds_up sh q rem); lia | lia].
Qed.

(** A binary64 below the rounding of [z] is below [z]. *)
Lemma below_nearest a z :
  0 <= a -> 0 <= z -> nearest a = a -> a < nearest z -> a < z.
Proof.
  intros Ha Hz Hrep Hlt. destruct (Z.lt_ge_cases a z) as [H|H]; [exact H|].
  pose proof (nearest_mono z a ltac:(lia)). lia.
Qed.

(** One more than a rounded integer rounds back to it. *)
Lemma nearest_succ_of_rounded z :
  0 <= z -> nearest z <> z -> nearest (nearest z + 1) = nearest z.
Proof.
  intros Hz Hne. pose proof (pow2_pos 53 ltac:(lia)) as H53.
  destruct (Z.lt_ge_cases z (2 ^ 53)) as [Hs|Hs].
  { rewrite nearest_small in Hne by lia. contradiction. }
  destruct (binade z Hs) as (sh & q & rem & Hsh & Hq & Hrem & ->).
  rewrite nearest_binade in * by assumption.
  pose proof (pow2_pos sh ltac:(lia)) as HS.
  pose proof (pow2_pos (sh - 1) ltac:(lia)) as Hh.
  assert (Hd : 2 ^ sh = 2 * 2 ^ (sh - 1)).
  { replace sh with (Z.succ (sh - 1)) at 1 by lia. apply Z.pow_succ_r. lia. }
  assert (E53 : 2 ^ 53 = 2 * 2 ^ 52) by reflexivity.
  assert (Hrem0 : rem <> 0).
  { intros ->. apply Hne. unfold rounds_up.
    destruct (Z.ltb_spec (2 ^ (sh - 1)) 0) as [?|_]; [lia|].
    destruct (Z.eqb_spec 0 (2 ^ (sh - 1))) as [?|_]; [lia|]. cbn [orb andb]. lia. }
  set (c := if rounds_up sh q rem then q + 1 else q) in *.
  assert (Hc : 2 ^ 52 <= c <= 2 ^ 53) by (unfold c; destruct (rounds_up sh q rem); lia).
  assert (Heven : sh = 1 -> Z.odd c = false).
  { intros ->. change (2 ^ 1) with 2 in *. change (2 ^ (1 - 1)) with 1 in *.
    assert (rem = 1) by lia. subst rem. unfold c, rounds_up.
    change (2 ^ (1 - 1)) with 1. change (1 <? 1) with false.
    change (1 =? 1) with true. cbn [orb andb].
    destruct (Z.odd q) eqn:Eo; cbv iota; [|exact Eo].
    rewrite Z.add_1_r, Z.odd_succ. rewrite <- Z.negb_odd, Eo. reflexivity. }
  destruct (Z.eq_dec c (2 ^ 53)) as [Ec|Ec].
  - (* the rounding reached the next power of two *)
    rewrite Ec. replace (2 ^ 53 * 2 ^ sh + 1) with (2 ^ 52 * 2 ^ (sh + 1) + 1)
      by (rewrite (Z.pow_add_r 2 sh 1) by lia; change (2 ^ 1) with 2; lia).
    rewrite nearest_binade; try lia.
    + unfold rounds_up. replace (sh + 1 - 1) with sh by lia.
      destruct (Z.ltb_spec (2 ^ sh) 1) as [?|_]; [lia|].
      destruct (Z.eqb_spec 1 (2 ^ sh)) as [?|_]; [lia|]. cbn [orb andb].
      rewrite (Z.pow_add_r 2 sh 1) by lia. change (2 ^ 1) with 2. lia.
    + rewrite (Z.pow_add_r 2 sh 1) by lia. change (2 ^ 1) with 2. lia.
  - rewrite nearest_binade; try lia.
    unfold rounds_up.
    destruct (Z.eq_dec sh 1) as [E1|E1].
    + rewrite (Heven E1). subst sh. change (2 ^ (1 - 1)) with 1.
      change (1 <? 1) with false. rewrite andb_false_r. reflexivity.
    + assert (2 <= 2 ^ (sh - 1)).
      { pose proof (pow2_le 1 (sh - 1) ltac:(lia)) as Hp. exact Hp. }
      destruct (Z.ltb_spec (2 ^ (sh - 1)) 1) as [?|_]; [lia|].
      destruct (Z.eqb_spec 1 (2 ^ (sh - 1))) as [?|_]; [lia|]. reflexivity.
Qed.

(** *** The product with the draw *)

(** The rounded significand, over its power of two, stays below the
    factor: a tie or a round-up adds at most half a unit in the last
    place, and the draw is a whole unit below 1. *)
Lemma round_below m e n :
  0 <= m < 2 ^ 53 -> m < 2 ^ e -> 0 <= e -> 0 < n ->
  let x := round (m * n) e in
  0 <= num x <= 2 ^ 53
  /\ exists sh, 0 <= sh /\ scale x = e - sh /\ num x * 2 ^ sh < n * 2 ^ e.
Proof.
  intros Hm Hme He Hn. unfold round.
  assert (HM : 0 <= m * n) by nia.
  destruct (Z.ltb_spec (m * n) 0) as [?|_]; [lia|]. unfold round_magnitude.
  destruct (Z.leb_spec (Z.log2 (m * n) + 1) 53) as [Hb|Hb]; cbn [num scale].
  - assert (m * n < 2 ^ 53).
    { destruct (Z.eq_dec (m * n) 0) as [->|Hne]; [reflexivity|].
      apply Z.log2_lt_pow2; lia. }
    split; [lia|]. exists 0. rewrite Z.sub_0_r, Z.pow_0_r. repeat split; nia.
  - set (sh := Z.log2 (m * n) + 1 - 53) in *.
    assert (Hsh : 1 <= sh) by (unfold sh; lia).
    assert (Hpos : 0 < m * n).
    { destruct (Z.eq_dec (m * n) 0) as [E|E]; [|lia].
      rewrite E in Hb. cbn in Hb. lia. }
    pose proof (Z.log2_spec _ Hpos) as [Hlo Hhi].
    assert (Hsplit : 2 ^ Z.log2 (m * n) = 2 ^ (sh - 1) * 2 ^ 53).
    { rewrite <- Z.pow_add_r by lia. f_equal. unfold sh. lia. }
    assert (Hsplit' : 2 ^ Z.succ (Z.log2 (m * n)) = 2 ^ sh * 2 ^ 53).
    { rewrite <- Z.pow_add_r by lia. f_equal. unfold sh. lia. }
    assert (Hdouble : 2 ^ sh = 2 * 2 ^ (sh - 1)).
    { replace sh with (Z.succ (sh - 1)) at 1 by lia. apply Z.pow_succ_r. lia. }
    assert (Hhalf : 0 < 2 ^ (sh - 1)) by (apply Z.pow_pos_nonneg; lia).
    pose proof (Z.div_mod (m * n) (2 ^ sh) ltac:(lia)) as Hdm.
    pose proof (Z.mod_pos_bound (m * n) (2 ^ sh) ltac:(lia)) as Hrem.
    set (q := m * n / 2 ^ sh) in *. set (rem := (m * n) mod 2 ^ sh) in *.
    set (half := 2 ^ (sh - 1)) in *.
    assert (Hq : 0 <= q) by (apply Z.div_pos; lia).
    assert (Hq53 : q < 2 ^ 53) by (apply Z.div_lt_upper_bound; lia).
    assert (Hlt : half < n) by nia.
    assert (Hup : (half <? rem) || (rem =? half) && Z.odd q = true -> half <= rem).
    { intros H. apply orb_prop in H as [H%Z.ltb_lt | H]; [lia|].
      apply andb_prop in H as [H%Z.eqb_eq _]. lia. }
    destruct ((half <? rem) || (rem =? half) && Z.odd q).
    + specialize (Hup eq_refl). split; [lia|]. exists sh. repeat split; [lia|].
      assert ((q + 1) * 2 ^ sh <= m * n + half) by nia. nia.
    + split; [lia|]. exists sh. repeat split; [lia|].
      assert (q * 2 ^ sh <= m * n) by nia. nia.
Qed.

(** [Math.floor(Math.random() * n)] is one of [0 .. n - 1], and a
    binary64. *)
Lemma floor_mul_integer r n :
  unit_interval r -> 0 < n ->
  0 <= floor (mul_integer r n) < n
  /\ nearest (floor (mul_integer r n)) = floor (mul_integer r n).
Proof.
  intros (Hm & Hme & He) Hn. unfold mul_integer.
  destruct (round_below (num r) (scale r) n Hm Hme ltac:(lia) Hn)
    as (Hnum & sh & Hsh & Hsc & Hlt).
  unfold floor. rewrite Hsc.
  set (x := num (round (num r * n) (scale r))) in *.
  set (e := scale r) in *.
  destruct (Z.le_gt_cases sh e) as [Hle|Hgt].
  - rewrite Z.shiftr_div_pow2 by lia.
    assert (Hp : 2 ^ e = 2 ^ (e - sh) * 2 ^ sh)
      by (rewrite <- Z.pow_add_r by lia; f_equal; lia).
    assert (0 < 2 ^ sh) by (apply Z.pow_pos_nonneg; lia).
    assert (0 < 2 ^ (e - sh)) by (apply Z.pow_pos_nonneg; lia).
    assert (Hk : 0 <= x / 2 ^ (e - sh) <= x).
    { split; [apply Z.div_pos; lia|]. apply Z.div_le_upper_bound; nia. }
    split.
    + split; [lia|]. apply Z.div_lt_upper_bound; [lia|]. nia.
    + apply nearest_upto. lia.
  - rewrite Z.shiftr_mul_pow2 by lia.
    assert (Hp : 2 ^ sh = 2 ^ (- (e - sh)) * 2 ^ e)
      by (rewrite <- Z.pow_add_r by lia; f_equal; lia).
    assert (0 < 2 ^ e) by (apply Z.pow_pos_nonneg; lia).
    assert (0 < 2 ^ (- (e - sh))) by (apply Z.pow_pos_nonneg; lia).
    split; [split; nia|]. apply nearest_exact; lia.
Qed.

(** *** The delay *)

(** The number of values, computed as the source does, leaves the draw
    below the difference of the bounds. *)
Lemma floor_within_difference r d :
  unit_interval r -> 0 <= d ->
  0 <= floor (mul_integer r (add (nearest d) 1)) <= d.
Proof.
  intros Hr Hd. unfold add.
  pose proof (nearest_nonneg d Hd) as Hd'.
  set (n := nearest (nearest d + 1)).
  assert (Hn : 0 < n).
  { pose proof (nearest_mono 1 (nearest d + 1) ltac:(lia)) as H.
    rewrite (nearest_small 1) in H by (pose proof (pow2_pos 53); lia).
    unfold n. lia. }
  destruct (floor_mul_integer r n Hr Hn) as ((Hk0 & Hkn) & Hrep).
  set (k := floor (mul_integer r n)) in *.
  split; [exact Hk0|].
  assert (Hk' : k < nearest d + 1) by (apply below_nearest; (lia || assumption)).
  destruct (Z.eq_dec k (nearest d)) as [E|E].
  - destruct (Z.eq_dec (nearest d) d) as [Ed|Ed]; [lia|].
    pose proof (nearest_succ_of_rounded d Hd Ed) as Hs. fold n in Hs. lia.
  - assert (k < d) by (apply below_nearest; (lia || assumption)). lia.
Qed.

(** The delay is between its bounds. *)
Theorem randomDelay_range random min max :
  unit_interval random -> integer min -> integer max -> 0 <= min <= max ->
  min <= timer (randomDelay random min max) <= max.
Proof.
  intros Hr (Hmin & _) (Hmax & _) Hmm.
  change (min <= nearest (floor (mul_integer random (add (nearest (max - min)) 1))
                          + min) <= max).
  pose proof (floor_within_difference random (max - min) Hr ltac:(lia)) as Hk.
  set (k := floor (mul_integer random (add (nearest (max - min)) 1))) in *.
  pose proof (nearest_mono min (k + min) ltac:(lia)).
  pose proof (nearest_mono (k + min) max ltac:(lia)). lia.
Qed.

(** Below 2^53 the integer arithmetic of the delay is exact. *)
Lemma randomDelay_safe random min max :
  unit_interval random -> 0 <= min <= max -> max < 2 ^ 53 ->
  timer (randomDelay random min max)
  = floor (mul_integer random (max - min + 1)) + min.
Proof.
  intros Hr Hmm Hmax. unfold randomDelay, add, sub. cbn [timer].
  pose proof (pow2_pos 53 ltac:(lia)) as H53.
  rewrite (nearest_small (max - min)) by lia.
  rewrite (nearest_upto (max - min + 1)) by lia.
  destruct (floor_mul_integer random (max - min + 1) Hr ltac:(lia)) as (Hk & _).
  apply nearest_small. lia.
Qed.

End Delay.

(** ** [login], [verifyToken] and the session lookup *)

Module Auth.
Import JSON JSONSpec Base64Facts RoundTrip Codec ParseFacts.

Lemma verifyToken_settled random token :
  settled (verifyToken random token)
  = try_catch (payload_user token) (Throw (Error (lit "Invalid token"))).
Proof. reflexivity. Qed.

Lemma getCurrentUser_stored token :
  token <> [] ->
  getCurrentUser (stored token) = try_catch (payload_user token) (Ok VNull).
Proof. intros H. destruct token; [contradiction | reflexivity]. Qed.


(** In an environment whose storage can be read, the lookup is that of
    [getCurrentUser]. *)
Lemma getCurrentUser_in_usable localStorage :
  getCurrentUser_in (usable localStorage) = getCurrentUser localStorage.
Proof. destruct localStorage; reflexivity. Qed.

Lemma isAuthenticated_in_usable localStorage :
  isAuthenticated_in (usable localStorage) = isAuthenticated localStorage.
Proof.
  unfold isAuthenticated_in, isAuthenticated. now rewrite getCurrentUser_in_usable.
Qed.

(** The lookup reads the token, then decodes it inside the [try]. *)
Lemma getCurrentUser_in_read localStorage :
  getCurrentUser_in localStorage
  = (token <- storage_read localStorage ;;
     match token with
     | None => Ok VNull
     | Some [] => Ok VNull
     | Some token => try_catch (payload_user token) (Ok VNull)
     end).
Proof. destruct localStorage; reflexivity. Qed.

(** What the lookup throws is what reading the storage threw. *)
Lemma getCurrentUser_in_throws localStorage e :
  getCurrentUser_in localStorage = Throw e <-> storage_read localStorage = Throw e.
Proof.
  rewrite getCurrentUser_in_read.
  destruct (storage_read localStorage) as [[[| c token]|]| e']; cbn [bind];
    try (split; discriminate); [|split; intros [= ->]; reflexivity].
  destruct (payload_user (c :: token)); cbn [try_catch]; split; discriminate.
Qed.

Lemma isAuthenticated_in_throws localStorage e :
  isAuthenticated_in localStorage = Throw e <-> storage_read localStorage = Throw e.
Proof.
  rewrite <- getCurrentUser_in_throws. unfold isAuthenticated_in.
  destruct (getCurrentUser_in localStorage); cbn [bind]; split;
    try discriminate; intros [= ->]; reflexivity.
Qed.

Lemma generateMockToken_nonempty now u token :
  generateMockToken now u = Ok token -> token <> [].
Proof.
  unfold generateMockToken.
  destruct (btoa (DOMString (stringify header_value))) as [h|]; [|discriminate].
  cbn [bind]. destruct (btoa _) as [p|]; [|discriminate]. cbn [bind].
  intros [= <-]. destruct h; discriminate.
Qed.

(** [verifyToken] resolves with the user of every token that
    [generateMockToken] returns. *)
Theorem verifyToken_generateMockToken random now u token :
  generateMockToken now u = Ok token ->
  settled (verifyToken random token) = Ok (User_value u).
Proof.
  intros H. rewrite verifyToken_settled.
  now rewrite (payload_user_generateMockToken _ _ _ H).
Qed.

(** A token needs a second segment to decode. *)
Lemma payload_user_no_segment token :
  nth_error (split dot token) 1 = None ->
  payload_user token = Throw InvalidCharacterError.
Proof. intros H. unfold payload_user. now rewrite H. Qed.

Lemma split_nil_second seg token :
  nth_error (split dot token) 1 = Some seg -> token <> [].
Proof. intros H ->. discriminate H. Qed.

(** What [login] does with a password other than ['error']: it resolves
    with the placeholder user and a token that decodes to it when the email
    is encodable, and rejects with the error of [btoa] when it is not. *)
Theorem login_outcome random now e p :
  jsstring_eqb p (lit "error") = false ->
  let user := {| id := lit "user-123"; email := e; name := lit "Jane Doe";
                 membershipType := premium; memberSince := lit "2024-01-15" |} in
  if encodable e
  then exists token,
         settled (login random now e p) = Ok (token, user)
         /\ settled (verifyToken random token) = Ok (User_value user)
  else settled (login random now e p) = Throw InvalidCharacterError.
Proof.
  intros Hp user. unfold login, await_then. cbn [settled randomDelay bind].
  rewrite Hp. fold user.
  pose proof (generateMockToken_outcome now user) as H.
  assert (He : User_encodable user = encodable e).
  { unfold User_encodable, user. cbn [id email name memberSince].
    change (encodable (lit "user-123")) with true.
    change (encodable (lit "Jane Doe")) with true.
    change (encodable (lit "2024-01-15")) with true.
    now destruct (encodable e). }
  rewrite He in H.
  destruct (encodable e).
  - destruct H as (token & E). exists token. rewrite E. cbn [bind].
    split; [reflexivity | now apply verifyToken_generateMockToken with now].
  - now rewrite H.
Qed.

(** The round trip, for a user whose strings are Latin-1: a token is
    made, and [verifyToken] resolves with the user. *)
Theorem round_trip_latin1 random now u :
  is_latin1 (id u) = true -> is_latin1 (email u) = true ->
  is_latin1 (name u) = true -> is_latin1 (memberSince u) = true ->
  exists token,
    generateMockToken now u = Ok token
    /\ settled (verifyToken random token) = Ok (User_value u).
Proof.
  intros Hi He Hn Hd. pose proof (generateMockToken_outcome now u) as H.
  unfold User_encodable in H. rewrite !encodable_latin1 in H by assumption.
  destruct H as (token & E). exists token.
  split; [exact E | now apply verifyToken_generateMockToken with now].
Qed.

(** Every [User] is a well-formed user at run time. *)
Lemma is_User_value u : is_User (User_value u) = true.
Proof. now destruct u as [i e n [| |] d]. Qed.

End Auth.

(** ** More on [split], Base64 and the token *)

Module TokenFacts.
Import JSON JSONSpec Base64Facts RoundTrip Codec.

Lemma split_from_last sep cur s :
  Forall (fun c => c <> sep) s -> split_from sep cur s = [rev cur ++ s].
Proof.
  intros Hs. revert cur. induction Hs as [| c s Hc _ IH]; intros cur; cbn [split_from].
  - now rewrite app_nil_r.
  - destruct (N.eqb_spec c sep) as [->|_]; [contradiction|].
    rewrite IH. cbn [rev]. now rewrite <- app_assoc.
Qed.

Lemma split_three_segments sep a b c :
  Forall (fun x => x <> sep) a -> Forall (fun x => x <> sep) b ->
  Forall (fun x => x <> sep) c ->
  split sep (a ++ sep :: b ++ sep :: c) = [a; b; c].
Proof.
  intros Ha Hb Hc. unfold split.
  rewrite split_from_segment by assumption. cbn [rev app].
  rewrite split_from_segment by assumption. cbn [rev app].
  now rewrite split_from_last by assumption.
Qed.

Lemma forallb_Forall_neq sep s :
  forallb (fun c => negb (c =? sep)) s = true -> Forall (fun c => c <> sep) s.
Proof.
  induction s as [| c s IH]; [constructor|]. cbn [forallb].
  intros H. apply andb_prop in H as [Hc Hs]. constructor; [|now apply IH].
  now apply negb_true_iff, N.eqb_neq in Hc.
Qed.

(** The anatomy of a token: the constant header, the Base64 of the JSON
    text of [{ user, exp }], the constant signature. *)
Lemma generateMockToken_anatomy now u token :
  generateMockToken now u = Ok token ->
  exists text p,
    stringify (payload_value u (now + 3600000)) = Some text
    /\ btoa text = Ok p
    /\ token = header_segment ++ dot :: p ++ dot :: lit "mock-signature".
Proof.
  unfold generateMockToken.
  change (btoa (DOMString (stringify header_value))) with (Ok header_segment).
  cbn [bind].
  destruct (stringify_payload u (now + 3600000)) as (text & Es & _).
  rewrite Es. cbn [DOMString].
  destruct (btoa text) as [p|] eqn:Eb; [|discriminate]. cbn [bind].
  intros [= <-]. now exists text, p.
Qed.

Lemma header_segment_no_dot : Forall (fun c => c <> dot) header_segment.
Proof. apply forallb_Forall_neq. reflexivity. Qed.

Lemma signature_no_dot : Forall (fun c => c <> dot) (lit "mock-signature").
Proof. apply forallb_Forall_neq. reflexivity. Qed.

Lemma token_payload_generateMockToken now u token :
  generateMockToken now u = Ok token ->
  token_payload token = Ok (payload_value u (now + 3600000)).
Proof.
  intros H.
  destruct (generateMockToken_anatomy now u token H) as (text & p & Es & Eb & ->).
  unfold token_payload.
  rewrite split_second
    by (try apply header_segment_no_dot; now apply btoa_no_dot with text).
  cbn [DOMString]. rewrite (btoa_atob _ _ Eb). cbn [bind].
  apply parse_stringify; [apply plain_payload | exact Es].
Qed.

(** Membership survives the two passes that [atob] makes before it looks
    the characters up. *)
Lemma strip_padding_keeps c d :
  In c d -> c <> Base64.pad -> In c (Base64.strip_padding d).
Proof.
  intros Hin Hc. induction d as [| x d IH]; [contradiction|].
  cbn [Base64.strip_padding].
  destruct d as [| y d'].
  - destruct Hin as [->|[]]. destruct (N.eqb_spec c Base64.pad); [contradiction|now left].
  - assert (Hstep : In c (x :: Base64.strip_padding (y :: d'))).
    { destruct Hin as [->|Hin]; [now left | right; now apply IH]. }
    destruct d' as [| z d'']; [|exact Hstep].
    destruct ((x =? Base64.pad) && (y =? Base64.pad)) eqn:E; [|exact Hstep].
    apply andb_prop in E as [Ex%N.eqb_eq Ey%N.eqb_eq].
    destruct Hin as [->|[->|[]]]; contradiction.
Qed.

Lemma sextets_foreign c d :
  In c d -> Base64.index_of c = None -> Base64.sextets d = None.
Proof.
  intros Hin Hc. induction d as [| x d IH]; [contradiction|].
  cbn [Base64.sextets]. destruct Hin as [->|Hin].
  - now rewrite Hc.
  - rewrite (IH Hin). now destruct (Base64.index_of x).
Qed.

(** [atob] throws on text with a character that is no white space, no
    [=] and not of the alphabet. *)
Lemma atob_foreign c data :
  In c data -> base64_foreign c = true -> atob data = Throw InvalidCharacterError.
Proof.
  unfold base64_foreign. intros Hin Hf.
  apply andb_prop in Hf as [Hf Hi]. apply andb_prop in Hf as [Hw Hp].
  apply negb_true_iff, N.eqb_neq in Hp.
  destruct (Base64.index_of c) eqn:Ei; [discriminate|].
  unfold atob. cbv zeta.
  set (d := filter (fun c0 => negb (Base64.is_ascii_whitespace c0)) data).
  assert (Hd : In c d) by (apply filter_In; now split).
  set (d' := if N.of_nat (length d) mod 4 =? 0 then Base64.strip_padding d else d).
  assert (Hd' : In c d').
  { unfold d'. destruct (N.of_nat (length d) mod 4 =? 0); [|exact Hd].
    now apply strip_padding_keeps. }
  destruct (N.of_nat (length d') mod 4 =? 1); [reflexivity|].
  now rewrite (sextets_foreign c d' Hd' Ei).
Qed.

(** An encodable string has no code unit above U+00FF other than a
    surrogate. *)
Lemma encodable_units s :
  encodable s = true -> Forall (fun c => c <= 255 \/ is_surrogate c = true) s.
Proof.
  unfold encodable. induction s as [| c r IH]; [constructor|]. cbn [quote_units].
  destruct (is_high_surrogate c) eqn:Hh.
  - assert (Hc : is_surrogate c = true) by (unfold is_surrogate; now rewrite Hh).
    destruct r as [| d r'].
    + intros _. constructor; [now right | constructor].
    + destruct (is_low_surrogate d) eqn:Hd.
      * rewrite is_latin1_cons. unfold is_high_surrogate in Hh.
        apply andb_prop in Hh as [H1%N.leb_le _].
        destruct (N.leb_spec c 255); [lia | discriminate].
      * rewrite is_latin1_app. intros H. apply andb_prop in H as [_ H].
        constructor; [now right | now apply IH].
  - destruct (is_low_surrogate c) eqn:Hl.
    + rewrite is_latin1_app. intros H. apply andb_prop in H as [_ H].
      constructor; [|now apply IH]. right. unfold is_surrogate. rewrite Hl.
      apply orb_true_r.
    + rewrite is_latin1_app. intros H. apply andb_prop in H as [Hq H].
      constructor; [|now apply IH]. left.
      unfold quote_unit in Hq.
      repeat match type of Hq with
        | context [N.eqb ?a ?b] =>
            destruct (N.eqb_spec a b); [subst c; unfold quote_mark, backslash; lia|]
        end.
      destruct (N.ltb_spec c 32); [lia|].
      rewrite is_latin1_cons in Hq. apply andb_prop in Hq as [Hq%N.leb_le _]. exact Hq.
Qed.

Lemma char_of_printable i : 43 <= Base64.char_of i <= 122.
Proof. unfold Base64.char_of. cases_N. Qed.

Lemma encode_printable bs : Forall (fun c => 43 <= c <= 122) (Base64.encode bs).
Proof.
  induction bs as [| a | a b | a b c bs IH] using list_ind_by3; cbn [Base64.encode];
    repeat constructor; try apply char_of_printable; try (unfold Base64.pad; lia).
  exact IH.
Qed.

End TokenFacts.

(** ** Worked examples *)

Module Examples.

Example btoa_Man : btoa (lit "Man") = Ok (lit "TWFu").
Proof. reflexivity. Qed.

Example btoa_Ma : btoa (lit "Ma") = Ok (lit "TWE=").
Proof. reflexivity. Qed.

Example btoa_M : btoa (lit "M") = Ok (lit "TQ==").
Proof. reflexivity. Qed.

Example btoa_above_latin1 : btoa [322] = Throw InvalidCharacterError.
Proof. reflexivity. Qed.

Example atob_unpadded_spaced : atob (lit " TW E ") = Ok (lit "Ma").
Proof. reflexivity. Qed.

Example atob_short_padding : atob (lit "TQ=") = Throw InvalidCharacterError.
Proof. reflexivity. Qed.

Example atob_undefined : atob (DOMString None) = Throw InvalidCharacterError.
Proof. reflexivity. Qed.

Example split_three : split dot (lit "a.b.c") = [lit "a"; lit "b"; lit "c"].
Proof. reflexivity. Qed.

Example split_empty : split dot [] = [[]].
Proof. reflexivity. Qed.

Example split_trailing : split dot (lit "a.") = [lit "a"; []].
Proof. reflexivity. Qed.

Example stringify_header :
  JSON.stringify header_value
  = Some (JSON.quote_mark_text (lit "{'alg':'HS256','typ':'JWT'}")).
Proof. reflexivity. Qed.

Example stringify_payload_jane :
  JSON.stringify (payload_value jane 1700003600000)
  = Some (JSON.quote_mark_text
            (lit "{'user':{'id':'user-123','email':'a@b.com','name':'Jane Doe','membershipType':'premium','memberSince':'2024-01-15'},'exp':1700003600000}")).
Proof. reflexivity. Qed.

Example stringify_escapes :
  JSON.stringify (VStr [10; 34; 92; 1; 55357; 56832; 55357; 233; 322])
  = Some (JSON.quote_mark_text (lit "'\n\'\\\u0001") ++ [55357; 56832]
          ++ lit "\ud83d" ++ [233; 322; 34]).
Proof. reflexivity. Qed.

Example parse_nested :
  JSON.parse (JSON.quote_mark_text (lit " {'a': [1, -2.5e3, true, null], 'a': 'xA' } "))
  = Ok (VObj [(lit "a", VStr (lit "xA"))]).
Proof. reflexivity. Qed.

Example parse_number_parts :
  JSON.parse (lit "-2.50e3")
  = Ok (VNum {| negative := true; mantissa := 250; exponent10 := 1 |}).
Proof. reflexivity. Qed.

Example parse_leading_zero : JSON.parse (lit "01") = Throw SyntaxError.
Proof. reflexivity. Qed.

Example parse_trailing_comma : JSON.parse (lit "[1,]") = Throw SyntaxError.
Proof. reflexivity. Qed.

Example parse_empty : JSON.parse [] = Throw SyntaxError.
Proof. reflexivity. Qed.

Example delay_of_half :
  timer (randomDelay half 500 2000) = 1250%Z
  /\ timer (randomDelay half 100 500) = 300%Z.
Proof. split; reflexivity. Qed.

(** The largest binary64 below 1 gives the upper bound, 0 the lower. *)
Example delay_extremes :
  timer (randomDelay (Binary64.Make (2 ^ 53 - 1) 53) 500 2000) = 2000%Z
  /\ timer (randomDelay (Binary64.Make 0 0) 500 2000) = 500%Z.
Proof. split; reflexivity. Qed.

(** Above 2^53 the sum [max - min + 1] is rounded: with the bounds 0 and
    2^53 it is 2^53, and the largest binary64 below 1 gives 2^53 - 1. *)
Example delay_of_rounded_width :
  Binary64.add (Binary64.sub (2 ^ 53) 0) 1 = (2 ^ 53)%Z
  /\ timer (randomDelay (Binary64.Make (2 ^ 53 - 1) 53) 0 (2 ^ 53))
     = (2 ^ 53 - 1)%Z.
Proof. split; vm_compute; reflexivity. Qed.

(** 2^53 + 1 is no binary64: as a bound it is read as 2^53. *)
Example integer_cases :
  Binary64.nearest (2 ^ 53 + 1) = (2 ^ 53)%Z
  /\ Binary64.nearest (2 ^ 53 + 3) = (2 ^ 53 + 4)%Z
  /\ Binary64.nearest (- (2 ^ 60 + 384)) = (- (2 ^ 60 + 512))%Z
  /\ Binary64.nearest 2000 = 2000%Z.
Proof. repeat split; vm_compute; reflexivity. Qed.

(** [login('a@b.com', 'pw')], then [verifyToken] of its token. *)
Example login_then_verify :
  exists token,
    login half 1700000000000 (lit "a@b.com") (lit "pw")
    = {| timer := 1250; settled := Ok (token, jane) |}
    /\ token = unsigned_token ++ lit ".mock-signature"
    /\ verifyToken half token = {| timer := 300; settled := Ok (User_value jane) |}.
Proof. eexists. repeat split; vm_compute; reflexivity. Qed.

Example login_error :
  login half 1700000000000 (lit "a@b.com") (lit "error")
  = {| timer := 1250; settled := Throw (Error (lit "Invalid credentials")) |}.
Proof. reflexivity. Qed.

Example lookup_cases :
  getCurrentUser None = Ok VNull
  /\ getCurrentUser (Some []) = Ok VNull
  /\ getCurrentUser (stored []) = Ok VNull
  /\ getCurrentUser (stored (lit "garbage")) = Ok VNull
  /\ getCurrentUser (stored (unsigned_token ++ lit ".mock-signature"))
     = Ok (User_value jane)
  /\ getCurrentUser (stored empty_token) = Ok VUndefined
  /\ getCurrentUser (stored null_token) = Ok VNull.
Proof. repeat split; vm_compute; reflexivity. Qed.

(** The lookup where the storage is not usable: only the global that is
    not defined gives [null]. *)
Example lookup_in_cases :
  getCurrentUser_in NotDefined = Ok VNull
  /\ getCurrentUser_in (ReadThrows SecurityError) = Throw SecurityError
  /\ getCurrentUser_in NoGetItem = Throw TypeError
  /\ getCurrentUser_in (StorageObject (fun _ => Throw SecurityError))
     = Throw SecurityError
  /\ getCurrentUser_in (usable (stored (lit "garbage"))) = Ok VNull
  /\ isAuthenticated_in (ReadThrows SecurityError) = Throw SecurityError.
Proof. repeat split; vm_compute; reflexivity. Qed.

(** Keys in digits and Numbers from 2^53 on are outside [safe]. *)
Example safe_cases :
  JSONSpec.safe (VObj [(lit "b", VNum (number_of_Z 1)); (lit "1", VNull)]) = false
  /\ JSONSpec.safe (VNum (number_of_Z (2 ^ 53 + 1))) = false
  /\ JSONSpec.safe (VNum (number_of_Z (2 ^ 53 - 1))) = true
  /\ JSONSpec.safe header_value = true.
Proof. repeat split; vm_compute; reflexivity. Qed.

End Examples.

(** * The properties of the specification *)

Import JSON JSONSpec Codec Auth ParseFacts.

(** C1. Decoding the token made for a well-formed user recovers the user:
    [verifyToken(generateMockToken(u))] returns [u].  [generateMockToken]
    does not get that far for a user with a letter outside Latin-1: for
    [lukasz], the user [login] makes for [polish_email], [btoa] throws and
    no token is made. *)
Theorem C1_generateMockToken_throws_outside_latin1 :
  forall now, generateMockToken now lukasz = Throw InvalidCharacterError.
Proof.
  intros now. exact (generateMockToken_outcome now lukasz).
Qed.

(** C2. For every email, [login(e, 'error')] rejects with
    [Error('Invalid credentials')], and so returns no token and no user. *)
Theorem C2_login_error_password :
  forall random now e,
    settled (login random now e (lit "error"))
    = Throw (Error (lit "Invalid credentials")).
Proof. reflexivity. Qed.

(** C3. For every email and every password other than ['error'], [login]
    resolves with a token and the placeholder user for that email, and the
    token decodes to that user.  For [polish_email], an email with a letter
    outside Latin-1, [login] rejects with the error of [btoa] instead. *)
Theorem C3_login_rejects_email_outside_latin1 :
  forall random now,
    settled (login random now polish_email (lit "pw"))
    = Throw InvalidCharacterError.
Proof.
  intros random now.
  exact (login_outcome random now polish_email (lit "pw") eq_refl).
Qed.

(** C4, as stated: every token with fewer than three segments is rejected.
    It is not: the header and payload of a token, without the signature
    segment, verify. *)
Lemma C4_unsigned_token_verifies :
  ~ (forall random token,
       (length (split dot token) < 3)%nat ->
       settled (verifyToken random token) = Throw (Error (lit "Invalid token"))).
Proof.
  intros H. specialize (H half unsigned_token).
  assert (L : (length (split dot unsigned_token) < 3)%nat) by (vm_compute; lia).
  specialize (H L). vm_compute in H. discriminate H.
Qed.

(** C4, amended. For every token with fewer than two segments, that is
    without a delimiter, [verifyToken] rejects with
    [Error('Invalid token')]. *)
Theorem C4_verifyToken_without_delimiter :
  forall random token,
    (length (split dot token) < 2)%nat ->
    settled (verifyToken random token) = Throw (Error (lit "Invalid token")).
Proof.
  intros random token H. rewrite verifyToken_settled.
  now rewrite payload_user_no_segment by now apply split_short.
Qed.

Lemma C4_verifyToken_without_delimiter_witness :
  (length (split dot (lit "garbage")) < 2)%nat
  /\ settled (verifyToken half (lit "garbage")) = Throw (Error (lit "Invalid token")).
Proof.
  assert (L : (length (split dot (lit "garbage")) < 2)%nat) by (vm_compute; lia).
  split; [exact L | exact (C4_verifyToken_without_delimiter half (lit "garbage") L)].
Defined.

(** C5, as stated: decoding a token fails or returns a complete
    well-formed user.  It does not: [partial_token] decodes to an object
    with a numeric [id] and nothing else. *)
Lemma C5_partial_user_returned :
  ~ (forall random token,
       (exists e, settled (verifyToken random token) = Throw e)
       \/ (exists v, settled (verifyToken random token) = Ok v
                     /\ is_User v = true)).
Proof.
  intros H. destruct (H half partial_token) as [[e E]|(v & E & Hv)].
  - vm_compute in E. discriminate E.
  - vm_compute in E. injection E as <-. vm_compute in Hv. discriminate Hv.
Qed.

(** C5, amended. For every token, decoding fails ([verifyToken] rejects
    with [Error('Invalid token')], [getCurrentUser] returns [null]) or
    returns, unchecked, the value that the payload holds under [user]; a
    token without a second segment, or whose second segment is not Base64 of
    JSON text, does not decode. *)
Theorem C5_decoding_returns_payload_user :
  forall random token,
    (forall v,
       payload_user token = Ok v <->
       exists seg text payload,
         nth_error (split dot token) 1 = Some seg
         /\ atob seg = Ok text
         /\ parse text = Ok payload
         /\ get_property payload (lit "user") = Ok v)
    /\ settled (verifyToken random token)
       = match payload_user token with
         | Ok v => Ok v
         | Throw _ => Throw (Error (lit "Invalid token"))
         end
    /\ getCurrentUser (stored token)
       = match payload_user token with
         | Ok v => Ok v
         | Throw _ => Ok VNull
         end.
Proof.
  intros random token. split; [intros v; split | split].
  - unfold payload_user. intros H.
    destruct (nth_error (split dot token) 1) as [seg|] eqn:Es;
      [|vm_compute in H; discriminate H].
    cbn [DOMString] in H.
    destruct (atob seg) as [text|] eqn:Ea; [|discriminate H]. cbn [bind] in H.
    destruct (parse text) as [payload|] eqn:Ep; [|discriminate H]. cbn [bind] in H.
    now exists seg, text, payload.
  - intros (seg & text & payload & Es & Ea & Ep & Eg).
    unfold payload_user. rewrite Es. cbn [DOMString].
    rewrite Ea. cbn [bind]. rewrite Ep. cbn [bind]. exact Eg.
  - rewrite verifyToken_settled. now destruct (payload_user token).
  - destruct token as [| c token]; [reflexivity|].
    rewrite getCurrentUser_stored by discriminate.
    now destruct (payload_user (c :: token)).
Qed.

Lemma C5_decoding_returns_payload_user_witness :
  payload_user partial_token
  = Ok (VObj [(lit "id", VNum (number_of_Z 7))]).
Proof.
  apply (proj1 (C5_decoding_returns_payload_user half partial_token)).
  exists (lit "eyJ1c2VyIjp7ImlkIjo3fX0="),
         [123; 34; 117; 115; 101; 114; 34; 58; 123; 34; 105; 100; 34; 58; 55; 125; 125],
         (VObj [(lit "user", VObj [(lit "id", VNum (number_of_Z 7))])]).
  repeat split; vm_compute; reflexivity.
Defined.

(** C6, as stated: [getCurrentUser()] returns [null] whenever the storage
    is unavailable.  It does not: where reading [localStorage] throws, the
    test of line 141 is outside the [try] and the lookup throws. *)
Lemma C6_unreadable_storage_throws :
  ~ (forall localStorage,
       unavailable localStorage -> getCurrentUser_in localStorage = Ok VNull).
Proof.
  intros H. specialize (H (ReadThrows SecurityError) I). discriminate H.
Qed.

(** C6. [getCurrentUser()] returns [null], and does not throw, when
    [localStorage] is not defined, when nothing is stored under
    ['auth_token'], and when the stored token does not decode. *)
Theorem C6_getCurrentUser_absent :
  forall localStorage,
    localStorage = NotDefined
    \/ (exists getItem,
          localStorage = StorageObject getItem
          /\ (getItem (lit "auth_token") = Ok None
              \/ exists token e,
                   getItem (lit "auth_token") = Ok (Some token)
                   /\ payload_user token = Throw e)) ->
    getCurrentUser_in localStorage = Ok VNull.
Proof.
  intros localStorage [-> | (read & -> & [E | (token & e & E & Ep)])];
    unfold getCurrentUser_in; [reflexivity | now rewrite E |].
  rewrite E. cbn [bind]. destruct token; [reflexivity|]. now rewrite Ep.
Qed.

Lemma C6_getCurrentUser_absent_witness :
  getCurrentUser_in (usable (stored (lit "garbage"))) = Ok VNull.
Proof.
  apply C6_getCurrentUser_absent. right.
  exists (fun key => Ok (getItem [(lit "auth_token", lit "garbage")] key)).
  split; [reflexivity|]. right. exists (lit "garbage"), InvalidCharacterError.
  split; vm_compute; reflexivity.
Defined.




(** C8, as stated: when the payload of the stored token is JSON without a
    [user] property, [getCurrentUser()] returns [undefined],
    [isAuthenticated()] returns true and [verifyToken] resolves with
    [undefined].  It is not so for the JSON text [null]: reading a property
    of [null] throws, so [getCurrentUser()] returns [null],
    [isAuthenticated()] returns false and [verifyToken] rejects. *)
Lemma C8_null_payload :
  ~ (forall random token seg text payload,
       nth_error (split dot token) 1 = Some seg ->
       atob seg = Ok text ->
       parse text = Ok payload ->
       has_own payload (lit "user") = false ->
       getCurrentUser (stored token) = Ok VUndefined
       /\ isAuthenticated (stored token) = Ok true
       /\ settled (verifyToken random token) = Ok VUndefined).
Proof.
  intros H.
  destruct (H half null_token (lit "bnVsbA==") (lit "null") VNull
              eq_refl eq_refl eq_refl eq_refl) as (E & _).
  vm_compute in E. discriminate E.
Qed.

(** C8, amended. When the payload of the stored token is a JSON value
    other than [null] without a [user] property, [getCurrentUser()] returns
    [undefined] without throwing, [isAuthenticated()] returns true, and
    [verifyToken] resolves with [undefined]. *)
Theorem C8_payload_without_user :
  forall random token seg text payload,
    nth_error (split dot token) 1 = Some seg ->
    atob seg = Ok text ->
    parse text = Ok payload ->
    payload <> VNull ->
    has_own payload (lit "user") = false ->
    getCurrentUser (stored token) = Ok VUndefined
    /\ isAuthenticated (stored token) = Ok true
    /\ settled (verifyToken random token) = Ok VUndefined.
Proof.
  intros random token seg text payload Es Ea Ep Hnull Hown.
  assert (Hp : payload_user token = Ok VUndefined).
  { unfold payload_user. rewrite Es. cbn [DOMString]. rewrite Ea. cbn [bind].
    rewrite Ep. cbn [bind]. pose proof (parse_defined _ _ Ep) as Hdef.
    destruct payload as [| | b | x | s | l | ps]; try reflexivity; try contradiction.
    unfold has_own in Hown. unfold get_property.
    now destruct (get_own (lit "user") ps). }
  assert (Hg : getCurrentUser (stored token) = Ok VUndefined).
  { rewrite getCurrentUser_stored by now apply split_nil_second with seg.
    now rewrite Hp. }
  repeat split.
  - exact Hg.
  - unfold isAuthenticated. now rewrite Hg.
  - rewrite verifyToken_settled. now rewrite Hp.
Qed.

Lemma C8_payload_without_user_witness :
  getCurrentUser (stored empty_token) = Ok VUndefined
  /\ isAuthenticated (stored empty_token) = Ok true
  /\ settled (verifyToken half empty_token) = Ok VUndefined.
Proof.
  apply (C8_payload_without_user half empty_token (lit "e30=") (lit "{}") (VObj []));
    try (vm_compute; reflexivity).
  discriminate.
Defined.

(** C9. [logout()] does nothing: the stored token and the rest of the
    state are as before, and [getCurrentUser()] and [isAuthenticated()]
    return after it what they returned before it. *)
Theorem C9_logout_noop :
  forall localStorage,
    snd (logout localStorage) = localStorage
    /\ getCurrentUser (snd (logout localStorage)) = getCurrentUser localStorage
    /\ isAuthenticated (snd (logout localStorage)) = isAuthenticated localStorage.
Proof. intros localStorage. repeat split. Qed.

(** C10. For integers [0 <= min <= max] and every draw of [Math.random()],
    the delay [Math.floor(random * (max - min + 1)) + min], each of its
    operations rounded as the code rounds it, is in [[min, max]]; [login]
    waits for the delay of the bounds 500 and 2000, [verifyToken] for that
    of the bounds 100 and 500. *)
Theorem C10_randomDelay_range :
  forall random min max,
    Binary64.unit_interval random ->
    Binary64.integer min -> Binary64.integer max ->
    (0 <= min <= max)%Z ->
    timer (randomDelay random min max)
    = Binary64.add
        (Binary64.floor
           (Binary64.mul_integer random
              (Binary64.add (Binary64.sub max min) 1)))
        min
    /\ (min <= timer (randomDelay random min max) <= max)%Z
    /\ (forall now e p,
          timer (login random now e p) = timer (randomDelay random 500 2000))
    /\ (forall token,
          timer (verifyToken random token) = timer (randomDelay random 100 500)).
Proof.
  intros random min max Hr Hmin Hmax Hmm. split; [reflexivity|]. split.
  - now apply Delay.randomDelay_range.
  - split; reflexivity.
Qed.

Lemma C10_randomDelay_range_witness :
  (100 <= timer (randomDelay half 100 500) <= 500)%Z.
Proof.
  apply (C10_randomDelay_range half 100 500).
  - unfold Binary64.unit_interval, half. cbn. lia.
  - split; [reflexivity | cbn; lia].
  - split; [reflexivity | cbn; lia].
  - lia.
Defined.

(** * Further properties of [auth.ts] *)

Import TokenFacts Base64Facts RoundTrip.

(** X1. [verifyToken] resolves with the user of every token that
    [generateMockToken] returns, whatever the time of the token and the
    draw of the delay: the expiry is not looked at. *)
Theorem X1_verifyToken_inverts_generateMockToken :
  forall random now u token,
    generateMockToken now u = Ok token ->
    settled (verifyToken random token) = Ok (User_value u).
Proof.
  intros random now u token H. now apply verifyToken_generateMockToken with now.
Qed.

Lemma X1_verifyToken_inverts_generateMockToken_witness :
  settled (verifyToken half jane_token) = Ok (User_value jane).
Proof.
  apply (X1_verifyToken_inverts_generateMockToken half 1700000000000 jane).
  vm_compute. reflexivity.
Defined.

(** X2. For a user whose four strings are Latin-1, [generateMockToken]
    returns a token, and [verifyToken] of that token resolves with the
    user. *)
Theorem X2_round_trip_of_latin1_user :
  forall random now u,
    is_latin1 (id u) = true -> is_latin1 (email u) = true ->
    is_latin1 (name u) = true -> is_latin1 (memberSince u) = true ->
    exists token,
      generateMockToken now u = Ok token
      /\ settled (verifyToken random token) = Ok (User_value u).
Proof. intros random now u. apply round_trip_latin1. Qed.

Lemma X2_round_trip_of_latin1_user_witness :
  exists token,
    generateMockToken 1700000000000 jane = Ok token
    /\ settled (verifyToken half token) = Ok (User_value jane).
Proof.
  apply (X2_round_trip_of_latin1_user half 1700000000000 jane); reflexivity.
Defined.

(** X3. [generateMockToken] throws the [InvalidCharacterError] of [btoa]
    for every user with a string that holds a code unit above U+00FF other
    than a surrogate. *)
Theorem X3_generateMockToken_throws_above_latin1 :
  forall now u c,
    In c (id u) \/ In c (email u) \/ In c (name u) \/ In c (memberSince u) ->
    255 < c -> is_surrogate c = false ->
    generateMockToken now u = Throw InvalidCharacterError.
Proof.
  intros now u c Hin Hc Hs. pose proof (generateMockToken_outcome now u) as H.
  destruct (User_encodable u) eqn:E; [|exact H]. exfalso.
  unfold User_encodable in E.
  apply andb_prop in E as [E Ed]. apply andb_prop in E as [E En].
  apply andb_prop in E as [Ei Ee].
  assert (Hno : forall s, encodable s = true -> ~ In c s).
  { intros s Hsenc Hcs. apply encodable_units in Hsenc.
    rewrite Forall_forall in Hsenc. destruct (Hsenc c Hcs) as [Hle|Hsur].
    - lia.
    - congruence. }
  destruct Hin as [Hin|[Hin|[Hin|Hin]]];
    [exact (Hno _ Ei Hin) | exact (Hno _ Ee Hin) | exact (Hno _ En Hin)
    | exact (Hno _ Ed Hin)].
Qed.

Lemma X3_generateMockToken_throws_above_latin1_witness :
  generateMockToken 1700000000000 lukasz = Throw InvalidCharacterError.
Proof.
  apply (X3_generateMockToken_throws_above_latin1 1700000000000 lukasz 322).
  - right. left. left. reflexivity.
  - reflexivity.
  - reflexivity.
Defined.

(** X4. For a Latin-1 email and a password other than ['error'], [login]
    resolves with a token and the placeholder user of that email, and
    [verifyToken] of the token resolves with that user. *)
Theorem X4_login_resolves_for_latin1_email :
  forall random random' now e p,
    p <> lit "error" -> is_latin1 e = true ->
    exists token,
      settled (login random now e p)
      = Ok (token, {| id := lit "user-123"; email := e; name := lit "Jane Doe";
                      membershipType := premium; memberSince := lit "2024-01-15" |})
      /\ settled (verifyToken random' token)
         = Ok (User_value
                 {| id := lit "user-123"; email := e; name := lit "Jane Doe";
                    membershipType := premium; memberSince := lit "2024-01-15" |}).
Proof.
  intros random random' now e p Hp He.
  assert (Hpb : jsstring_eqb p (lit "error") = false).
  { destruct (jsstring_eqb p (lit "error")) eqn:E; [|reflexivity].
    now apply jsstring_eqb_eq in E. }
  pose proof (login_outcome random now e p Hpb) as H. cbv zeta in H.
  rewrite (encodable_latin1 e He) in H. destruct H as (token & E & _).
  exists token. split; [exact E|].
  unfold login, await_then in E. cbn [settled randomDelay bind] in E.
  rewrite Hpb in E.
  destruct (generateMockToken now _) as [t|] eqn:Eg; [|discriminate E].
  cbn [bind] in E. injection E as <-.
  now apply verifyToken_generateMockToken with now.
Qed.

Lemma X4_login_resolves_for_latin1_email_witness :
  exists token,
    settled (login half 1700000000000 (lit "a@b.com") (lit "pw")) = Ok (token, jane)
    /\ settled (verifyToken half token) = Ok (User_value jane).
Proof.
  apply (X4_login_resolves_for_latin1_email half half 1700000000000
           (lit "a@b.com") (lit "pw")).
  - discriminate.
  - reflexivity.
Defined.

(** X5. [login] rejects with [Error('Invalid credentials')] for the
    password ['error'] and for no other password. *)
Theorem X5_invalid_credentials_only_for_error :
  forall random now e p,
    settled (login random now e p) = Throw (Error (lit "Invalid credentials"))
    <-> p = lit "error".
Proof.
  intros random now e p. split.
  - intros H. destruct (jsstring_eqb p (lit "error")) eqn:E;
      [now apply jsstring_eqb_eq in E|]. exfalso.
    pose proof (login_outcome random now e p E) as Ho. cbv zeta in Ho.
    destruct (encodable e).
    + destruct Ho as (token & Ho & _). congruence.
    + congruence.
  - intros ->. reflexivity.
Qed.

(** X6. Every token that [generateMockToken] returns has exactly three
    segments: the constant header, the payload, and ['mock-signature']. *)
Theorem X6_token_has_three_segments :
  forall now u token,
    generateMockToken now u = Ok token ->
    exists payload,
      split dot token = [header_segment; payload; lit "mock-signature"].
Proof.
  intros now u token H.
  destruct (generateMockToken_anatomy now u token H) as (text & p & _ & Eb & ->).
  exists p. apply split_three_segments;
    [apply header_segment_no_dot | now apply btoa_no_dot with text
    | apply signature_no_dot].
Qed.

Lemma X6_token_has_three_segments_witness :
  exists payload,
    split dot jane_token = [header_segment; payload; lit "mock-signature"].
Proof.
  apply (X6_token_has_three_segments 1700000000000 jane). vm_compute. reflexivity.
Defined.

(** X7. Neither the header nor the signature is checked: the payload
    segment of a token, between any header without a delimiter and any
    signature, verifies to the user of the token. *)
Theorem X7_header_and_signature_unchecked :
  forall random now u token payload header signature,
    generateMockToken now u = Ok token ->
    nth_error (split dot token) 1 = Some payload ->
    Forall (fun c => c <> dot) header ->
    settled (verifyToken random (header ++ dot :: payload ++ dot :: signature))
    = Ok (User_value u).
Proof.
  intros random now u token payload header signature H Hseg Hh.
  pose proof (payload_user_generateMockToken now u token H) as Hu.
  destruct (generateMockToken_anatomy now u token H) as (text & p & _ & Eb & ->).
  pose proof (btoa_no_dot _ _ Eb) as Hp.
  rewrite split_second in Hseg by (try assumption; apply header_segment_no_dot).
  injection Hseg as <-.
  rewrite verifyToken_settled.
  unfold payload_user in *.
  rewrite split_second in Hu by (try assumption; apply header_segment_no_dot).
  rewrite split_second by assumption. now rewrite Hu.
Qed.

Lemma X7_header_and_signature_unchecked_witness :
  settled (verifyToken half (lit "x" ++ dot :: jane_segment ++ dot :: lit "forged.sig"))
  = Ok (User_value jane).
Proof.
  apply (X7_header_and_signature_unchecked half 1700000000000 jane jane_token).
  - vm_compute. reflexivity.
  - vm_compute. reflexivity.
  - repeat constructor. discriminate.
Defined.

(** X8. The payload of a token, read back by [atob] and [JSON.parse], is
    the object [{ user, exp }] with [exp] one hour (3600000 ms) after the
    time of the token. *)
Theorem X8_payload_carries_user_and_expiry :
  forall now u token,
    generateMockToken now u = Ok token ->
    token_payload token
    = Ok (VObj [(lit "user", User_value u);
                (lit "exp", VNum (number_of_Z (now + 3600000)))]).
Proof.
  intros now u token H. now apply token_payload_generateMockToken.
Qed.

Lemma X8_payload_carries_user_and_expiry_witness :
  token_payload jane_token
  = Ok (VObj [(lit "user", User_value jane);
              (lit "exp", VNum (number_of_Z (1700000000000 + 3600000)))]).
Proof.
  apply (X8_payload_carries_user_and_expiry 1700000000000 jane).
  vm_compute. reflexivity.
Defined.

(** X9. A token determines its user and its time: two calls of
    [generateMockToken] that return the same token were made for the same
    user at the same time. *)
Theorem X9_token_determines_user_and_time :
  forall now1 now2 u1 u2 token,
    generateMockToken now1 u1 = Ok token ->
    generateMockToken now2 u2 = Ok token ->
    u1 = u2 /\ now1 = now2.
Proof.
  intros now1 now2 u1 u2 token H1 H2.
  pose proof (token_payload_generateMockToken now1 u1 token H1) as P1.
  pose proof (token_payload_generateMockToken now2 u2 token H2) as P2.
  rewrite P1 in P2. injection P2 as Hi He Hn Hm Hd Hneg Habs.
  split.
  - destruct u1 as [i1 e1 n1 m1 d1], u2 as [i2 e2 n2 m2 d2].
    cbn [id email name membershipType memberSince] in *. subst.
    f_equal. destruct m1, m2; try reflexivity; discriminate Hm.
  - destruct (Z.ltb_spec (now1 + 3600000) 0), (Z.ltb_spec (now2 + 3600000) 0);
      try discriminate Hneg; lia.
Qed.

Lemma X9_token_determines_user_and_time_witness :
  jane = jane /\ 1700000000000%Z = 1700000000000%Z.
Proof.
  apply (X9_token_determines_user_and_time 1700000000000 1700000000000 jane jane
           jane_token); vm_compute; reflexivity.
Defined.

(** X10. Once the token that [login] resolved with is stored under
    ['auth_token'], [getCurrentUser()] returns the user that [login]
    resolved with, whose email is the one given to [login], and
    [isAuthenticated()] returns true. *)
Theorem X10_lookup_after_login :
  forall random now e p token user items,
    settled (login random now e p) = Ok (token, user) ->
    getItem items (lit "auth_token") = Some token ->
    getCurrentUser (Some items) = Ok (User_value user)
    /\ isAuthenticated (Some items) = Ok true
    /\ email user = e.
Proof.
  intros random now e p token user items Hl Hi.
  unfold login, await_then in Hl. cbn [settled randomDelay bind] in Hl.
  destruct (jsstring_eqb p (lit "error")); [discriminate Hl|].
  destruct (generateMockToken now _) as [t|] eqn:Eg; [|discriminate Hl].
  cbn [bind] in Hl. injection Hl as -> <-.
  pose proof (generateMockToken_nonempty _ _ _ Eg) as Hne.
  pose proof (payload_user_generateMockToken _ _ _ Eg) as Hu.
  assert (Hg : getCurrentUser (Some items)
               = Ok (User_value {| id := lit "user-123"; email := e;
                                   name := lit "Jane Doe"; membershipType := premium;
                                   memberSince := lit "2024-01-15" |})).
  { unfold getCurrentUser. rewrite Hi.
    destruct token as [| c token]; [contradiction|]. now rewrite Hu. }
  repeat split; [exact Hg|]. unfold isAuthenticated. now rewrite Hg.
Qed.

Lemma X10_lookup_after_login_witness :
  getCurrentUser (stored jane_token) = Ok (User_value jane)
  /\ isAuthenticated (stored jane_token) = Ok true
  /\ email jane = lit "a@b.com".
Proof.
  apply (X10_lookup_after_login half 1700000000000 (lit "a@b.com") (lit "pw")
           jane_token jane [(lit "auth_token", jane_token)]);
    vm_compute; reflexivity.
Defined.

(** X11. [getCurrentUser()] and [isAuthenticated()] throw exactly what
    reading the token from [localStorage] throws, outside their [try]: no
    stored string makes them throw, an unreadable storage does. *)
Theorem X11_lookup_throws_what_storage_throws :
  forall localStorage e,
    (getCurrentUser_in localStorage = Throw e
     <-> storage_read localStorage = Throw e)
    /\ (isAuthenticated_in localStorage = Throw e
        <-> storage_read localStorage = Throw e).
Proof.
  intros localStorage e.
  split; [apply getCurrentUser_in_throws | apply isAuthenticated_in_throws].
Qed.

(** X12. A token whose second segment holds a character that is no white
    space, no [=] and not of the Base64 alphabet, such as the [-] and [_] of
    Base64url, is rejected by [verifyToken] with [Error('Invalid token')]
    and gives [null] in [getCurrentUser()]. *)
Theorem X12_foreign_character_rejected :
  forall random token segment c,
    nth_error (split dot token) 1 = Some segment ->
    In c segment -> base64_foreign c = true ->
    settled (verifyToken random token) = Throw (Error (lit "Invalid token"))
    /\ getCurrentUser (stored token) = Ok VNull.
Proof.
  intros random token segment c Hs Hin Hc.
  assert (Hp : payload_user token = Throw InvalidCharacterError).
  { unfold payload_user. rewrite Hs. cbn [DOMString].
    now rewrite (atob_foreign c segment Hin Hc). }
  split.
  - rewrite verifyToken_settled. now rewrite Hp.
  - rewrite getCurrentUser_stored by now apply split_nil_second with segment.
    now rewrite Hp.
Qed.

Lemma X12_foreign_character_rejected_witness :
  settled (verifyToken half (lit "a.e_30.c")) = Throw (Error (lit "Invalid token"))
  /\ getCurrentUser (stored (lit "a.e_30.c")) = Ok VNull.
Proof.
  apply (X12_foreign_character_rejected half (lit "a.e_30.c") (lit "e_30") 95).
  - reflexivity.
  - right. left. reflexivity.
  - reflexivity.
Defined.

(** X13. [atob] gives back every text that [btoa] encoded: the Base64
    step of [generateMockToken] is undone by that of [verifyToken] and
    [getCurrentUser]. *)
Theorem X13_atob_inverts_btoa :
  forall text encoded, btoa text = Ok encoded -> atob encoded = Ok text.
Proof. intros text encoded. apply btoa_atob. Qed.

Lemma X13_atob_inverts_btoa_witness : atob (lit "TWE=") = Ok (lit "Ma").
Proof. apply (X13_atob_inverts_btoa (lit "Ma") (lit "TWE=")). reflexivity. Defined.

(** X14. [JSON.parse] gives back every value that [JSON.stringify] wrote,
    when the value holds nothing [undefined], integer Numbers below 2^53
    in magnitude only, no object with a repeated key and no key written in
    digits only: the JSON step of [generateMockToken] is undone by that of
    [verifyToken] and [getCurrentUser]. *)
Theorem X14_parse_inverts_stringify :
  forall v text,
    plain v = true -> safe v = true ->
    JSON.stringify v = Some text -> JSON.parse text = Ok v.
Proof. intros v text Hp _. now apply parse_stringify. Qed.

Lemma X14_parse_inverts_stringify_witness :
  JSON.parse (JSON.quote_mark_text (lit "{'alg':'HS256','typ':'JWT'}"))
  = Ok header_value.
Proof.
  apply (X14_parse_inverts_stringify header_value); reflexivity.
Defined.

(** X15. A token is printable ASCII without white space: each of its
    code units is between [+] (43) and [z] (122). *)
Theorem X15_token_is_printable_ascii :
  forall now u token,
    generateMockToken now u = Ok token ->
    Forall (fun c => 43 <= c <= 122) token.
Proof.
  intros now u token H.
  destruct (generateMockToken_anatomy now u token H) as (text & p & _ & Eb & ->).
  assert (Hc : forall s, forallb (fun c => (43 <=? c) && (c <=? 122)) s = true ->
                         Forall (fun c => 43 <= c <= 122) s).
  { induction s as [| c s IH]; [constructor|]. cbn [forallb]. intros Hs.
    apply andb_prop in Hs as [Hc Hs]. apply andb_prop in Hc as [H1%N.leb_le H2%N.leb_le].
    constructor; [lia | now apply IH]. }
  unfold btoa in Eb. destruct (is_latin1 text); [|discriminate Eb].
  injection Eb as <-.
  apply Forall_app. split; [now apply Hc|].
  constructor; [unfold dot; lia|].
  apply Forall_app. split; [apply encode_printable|].
  constructor; [unfold dot; lia | now apply Hc].
Qed.

Lemma X15_token_is_printable_ascii_witness :
  Forall (fun c => 43 <= c <= 122) jane_token.
Proof.
  apply (X15_token_is_printable_ascii 1700000000000 jane). vm_compute. reflexivity.
Defined.
